(** * web_analyser: the extraction logic of [server.js]

    A shallow embedding of the server's text-extraction functions
    ([getTagContent], [getMetaContent], [countWordsInPTags],
    [getDocumentTitle]), of the request handler [handleAnalysis], of the
    HTTP routing callback and of the module's top-level evaluation,
    together with the properties of the specification they satisfy or
    break.

    JavaScript strings are sequences of UTF-16 code units; regular
    expressions are compiled from their pattern source and run by a
    backtracking matcher that lists the alternatives in the order the
    ECMAScript matcher tries them. *)

From Stdlib Require Import NArith String Ascii Bool Arith Lia List.
Import ListNotations.

(* ================================================================== *)
(** * JavaScript strings *)
(* ================================================================== *)

Module JS.

(** A code unit of a JavaScript string (a 16-bit value). *)
Abbreviation char16 := N (only parsing).

(** A JavaScript string: its code units, [length] is the [.length]
    property. *)
Abbreviation str := (list N) (only parsing).

(** An ASCII literal of the source text as a JavaScript string. *)
Definition js (s : string) : str :=
  map N_of_ascii (list_ascii_of_string s).

(** The double quote character, as a one-character literal. *)
Definition DQUOTE : string := String (ascii_of_N 34) EmptyString.

Definition eqb_str (a b : str) : bool :=
  if list_eq_dec N.eq_dec a b then true else false.

(** WhiteSpace and LineTerminator code points of ECMAScript: the set
    removed by [trim] and matched by the class escape [\s]. *)
Definition isWhiteSpace (c : char16) : bool :=
  ((9 <=? c) && (c <=? 13) || (c =? 32) || (c =? 160) || (c =? 5760)
   || ((8192 <=? c) && (c <=? 8202)) || (c =? 8232) || (c =? 8233)
   || (c =? 8239) || (c =? 8287) || (c =? 12288) || (c =? 65279))%N.

(** LineTerminator: LF, CR, LS, PS.  The dot of a pattern without the
    [s] flag matches every code unit but these. *)
Definition isLineTerminator (c : char16) : bool :=
  ((c =? 10) || (c =? 13) || (c =? 8232) || (c =? 8233))%N.

Fixpoint trimStart (s : str) : str :=
  match s with
  | c :: s' => if isWhiteSpace c then trimStart s' else s
  | [] => []
  end.

Definition trimEnd (s : str) : str := rev (trimStart (rev s)).

(** [String.prototype.trim]. *)
Definition trim (s : str) : str := trimEnd (trimStart s).

(** The case mapping of the Unicode character database for the code
    units from 128 on: [toUpperCase16 c] is the code unit of
    [String.fromCharCode(c).toUpperCase()] when that string has one code
    unit, and [c] otherwise.  The table belongs to the JavaScript
    engine, the development is parametric in it. *)
Class UnicodeData := { toUpperCase16 : char16 -> char16 }.

(** A table without any mapping above ASCII, to run the functions on
    ASCII text. *)
Definition ascii_case_table : UnicodeData :=
  {| toUpperCase16 := fun c => c |}.

(** Canonicalize of a RegExp without the [u] flag (ECMAScript 22.2.5.6):
    with [ignoreCase] a code unit is compared through its upper case,
    except that a code unit from 128 on is never mapped below 128. *)
Definition Canonicalize {U : UnicodeData} (ignoreCase : bool) (ch : char16)
  : char16 :=
  if ignoreCase then
    if (ch <? 128)%N then
      if ((97 <=? ch) && (ch <=? 122))%N then (ch - 32)%N else ch
    else
      let cu := toUpperCase16 ch in
      if (cu <? 128)%N then ch else cu
  else ch.

(** Template literals: the template value of the raw text between the
    substitutions (ECMAScript 12.9.6, TV).  A backslash followed by a
    single escape character gives the control or quote character, a
    backslash followed by any other character that starts no hexadecimal,
    unicode or decimal escape gives that character itself. *)
Fixpoint TV (raw : list ascii) : option str :=
  match raw with
  | [] => Some []
  | "\"%char :: c :: rest =>
      let cooked :=
        match c with
        | "b"%char => Some 8%N
        | "t"%char => Some 9%N
        | "n"%char => Some 10%N
        | "v"%char => Some 11%N
        | "f"%char => Some 12%N
        | "r"%char => Some 13%N
        | "x"%char | "u"%char
        | "0"%char | "1"%char | "2"%char | "3"%char | "4"%char
        | "5"%char | "6"%char | "7"%char | "8"%char | "9"%char => None
        | _ => if isLineTerminator (N_of_ascii c) then None
               else Some (N_of_ascii c)
        end in
      match cooked, TV rest with
      | Some k, Some t => Some (k :: t)
      | _, _ => None
      end
  | c :: rest =>
      if Ascii.eqb c "\"%char then None
      else match TV rest with Some t => Some (N_of_ascii c :: t) | None => None end
  end.

(** The parts of a template literal: raw text and substitutions. *)
Inductive TemplatePart :=
| Raw (text : string)
| Subst (value : str).

Fixpoint template (parts : list TemplatePart) : option str :=
  match parts with
  | [] => Some []
  | Raw text :: ps =>
      match TV (list_ascii_of_string text), template ps with
      | Some a, Some b => Some (a ++ b)
      | _, _ => None
      end
  | Subst v :: ps =>
      match template ps with Some b => Some (v ++ b) | None => None end
  end.

End JS.
Import JS.

(* ================================================================== *)
(** * Regular expressions *)
(* ================================================================== *)

Module RegExp.

(** ** Patterns

    The fragment of the pattern grammar of a regular expression without
    the [u] flag that is modelled: pattern characters, with the
    brackets and braces that the grammar of web browsers takes as such,
    the dot, the class escapes [\s] and [\S], identity escapes,
    character classes with ranges, the quantifiers [*], [+], [?] and
    the braced ones (greedy or lazy) on a one-character term, and
    capturing groups.  Alternatives, assertions, back references, the
    other escapes, groups that are quantified or do not capture are
    outside of it. *)

Inductive ClassItem :=
| IChar (c : char16)
| ISpace (negated : bool)
| IRange (lo hi : char16).

Inductive Atom :=
| AChar (c : char16)
| ADot
| ASpace (negated : bool)
| AClass (negated : bool) (items : list ClassItem).

Inductive Quant :=
| One
| Star (greedy : bool)
| Plus (greedy : bool)
| Opt (greedy : bool)
| Rep (min : N) (max : option N) (greedy : bool).

#[warnings="-register-all"]
Inductive Node :=
| Single (a : Atom) (q : Quant)
| Group (index : nat) (body : list Node).

Record t := { nodes : list Node; ignoreCase : bool; global : bool }.

(** ** The pattern parser *)

(** The states of the parser.  In a class: the items read, last first,
    the class atom read last while it can still start a range, and
    whether a [-] was read after it.  [MSkip n]: the [n] last
    characters of a braced quantifier are still to pass. *)
Inductive Mode :=
| MNormal
| MEscape
| MSkip (n : nat)
| MClassStart
| MClass (negated : bool) (items_rev : list ClassItem)
         (pending : option ClassItem) (dash : bool)
| MClassEscape (negated : bool) (items_rev : list ClassItem)
               (pending : option ClassItem) (dash : bool).

(** SyntaxCharacter of the pattern grammar. *)
Definition isSyntaxCharacter (c : char16) : bool :=
  existsb (N.eqb c) (js "^$\.*+?()[]{}|").

(** The characters a backslash may stand before as an identity escape:
    the syntax characters and the slash. *)
Definition isIdentityEscape (c : char16) : bool :=
  isSyntaxCharacter c || (c =? 47)%N.

(** A quantifier symbol applied to the term parsed last. *)
Definition quantify (c : char16) (cur_rev : list Node) : option (list Node) :=
  match cur_rev with
  | Single a One :: ns =>
      if (c =? 42)%N then Some (Single a (Star true) :: ns)
      else if (c =? 43)%N then Some (Single a (Plus true) :: ns)
      else Some (Single a (Opt true) :: ns)
  | Single a (Star true) :: ns =>
      if (c =? 63)%N then Some (Single a (Star false) :: ns) else None
  | Single a (Plus true) :: ns =>
      if (c =? 63)%N then Some (Single a (Plus false) :: ns) else None
  | Single a (Opt true) :: ns =>
      if (c =? 63)%N then Some (Single a (Opt false) :: ns) else None
  | Single a (Rep min max true) :: ns =>
      if (c =? 63)%N then Some (Single a (Rep min max false) :: ns) else None
  | _ => None
  end.

(** DecimalDigits at the head of the source: their value, if there is
    a digit, and the source after them. *)
Fixpoint digits (p : str) (acc : option N) : option N * str :=
  match p with
  | c :: p' =>
      if ((48 <=? c) && (c <=? 57))%N
      then digits p' (Some (10 * match acc with Some n => n | None => 0 end
                            + (c - 48)))%N
      else (acc, p)
  | [] => (acc, [])
  end.

(** The source after a left brace: the bounds of the braced quantifier
    it completes, [{n}], [{n,}] or [{n,m}], and the number of its
    characters; [None] when it completes none. *)
Definition braced (p : str) : option (N * option N * nat) :=
  match digits p None with
  | (Some lo, 125%N :: rest) =>
      Some (lo, Some lo, length p - length rest)
  | (Some lo, 44%N :: rest1) =>
      match digits rest1 None with
      | (None, 125%N :: rest) => Some (lo, None, length p - length rest)
      | (Some hi, 125%N :: rest) => Some (lo, Some hi, length p - length rest)
      | _ => None
      end
  | _ => None
  end.

(** A class atom read in a class after the items [items], the atom
    [pending] and, when [dash], a [-]: it ends a range, or joins the
    items with the [-] when one of the two atoms is a class escape, or
    becomes the pending atom.  [None]: a range out of order. *)
Definition class_atom (items : list ClassItem) (pending : option ClassItem)
  (dash : bool) (B : ClassItem) : option (list ClassItem * option ClassItem) :=
  match pending with
  | None => Some (items, Some B)
  | Some A =>
      if dash then
        match A, B with
        | IChar lo, IChar hi =>
            if (hi <? lo)%N then None else Some (IRange lo hi :: items, None)
        | _, _ => Some (B :: IChar 45%N :: A :: items, None)
        end
      else Some (A :: items, Some B)
  end.

(** One character read in a class: the next state of the class, or the
    term of the class that it closes. *)
Definition in_class (neg : bool) (items : list ClassItem)
  (pending : option ClassItem) (dash : bool) (c : char16)
  : option (Mode + Node) :=
  if (c =? 93)%N then
    let items1 := match pending with Some A => A :: items | None => items end in
    let items2 := if dash then IChar 45%N :: items1 else items1 in
    Some (inr (Single (AClass neg (rev items2)) One))
  else if (c =? 92)%N then Some (inl (MClassEscape neg items pending dash))
  else if (c =? 45)%N
          && match pending with Some _ => negb dash | None => false end
  then Some (inl (MClass neg items pending true))
  else match class_atom items pending dash (IChar c) with
       | Some (items', pending') => Some (inl (MClass neg items' pending' false))
       | None => None
       end.

(** One pass over the pattern source.  [stack] holds, for every group
    that is open, its index and the terms parsed before it; [cur_rev] the
    terms of the innermost open group, last first; [ngroups] the number
    of left parentheses seen.  [None]: the pattern is a SyntaxError or
    lies outside the fragment. *)
Fixpoint parse (p : str) (mode : Mode) (stack : list (nat * list Node))
  (cur_rev : list Node) (ngroups : nat) : option (list Node) :=
  match p with
  | [] =>
      match mode, stack with
      | MNormal, [] => Some (rev cur_rev)
      | _, _ => None
      end
  | c :: p' =>
      match mode with
      | MNormal =>
          if (c =? 92)%N then parse p' MEscape stack cur_rev ngroups
          else if (c =? 91)%N then parse p' MClassStart stack cur_rev ngroups
          else if (c =? 40)%N then
            match p' with
            | 63%N :: _ => None
            | _ => parse p' MNormal ((S ngroups, cur_rev) :: stack) [] (S ngroups)
            end
          else if (c =? 41)%N then
            match stack with
            | (idx, outer) :: stack' =>
                parse p' MNormal stack' (Group idx (rev cur_rev) :: outer) ngroups
            | [] => None
            end
          else if ((c =? 42) || (c =? 43) || (c =? 63))%N then
            match quantify c cur_rev with
            | Some cur' => parse p' MNormal stack cur' ngroups
            | None => None
            end
          else if (c =? 46)%N then
            parse p' MNormal stack (Single ADot One :: cur_rev) ngroups
          else if (c =? 123)%N then
            match braced p' with
            | Some (lo, hi, n) =>
                (* a braced quantifier: on a term not yet quantified *)
                match cur_rev with
                | Single a One :: ns =>
                    if match hi with Some h => (h <? lo)%N | None => false end
                    then None
                    else parse p' (MSkip n) stack
                               (Single a (Rep lo hi true) :: ns) ngroups
                | _ => None
                end
            | None =>
                parse p' MNormal stack (Single (AChar c) One :: cur_rev) ngroups
            end
          else if ((c =? 93) || (c =? 125))%N then
            parse p' MNormal stack (Single (AChar c) One :: cur_rev) ngroups
          else if isSyntaxCharacter c then None
          else parse p' MNormal stack (Single (AChar c) One :: cur_rev) ngroups
      | MEscape =>
          if (c =? 115)%N then
            parse p' MNormal stack (Single (ASpace false) One :: cur_rev) ngroups
          else if (c =? 83)%N then
            parse p' MNormal stack (Single (ASpace true) One :: cur_rev) ngroups
          else if isIdentityEscape c then
            parse p' MNormal stack (Single (AChar c) One :: cur_rev) ngroups
          else None
      | MSkip n =>
          match n with
          | S (S n') => parse p' (MSkip (S n')) stack cur_rev ngroups
          | _ => parse p' MNormal stack cur_rev ngroups
          end
      | MClassStart =>
          if (c =? 94)%N then
            parse p' (MClass true [] None false) stack cur_rev ngroups
          else
            match in_class false [] None false c with
            | Some (inl mode') => parse p' mode' stack cur_rev ngroups
            | Some (inr node) => parse p' MNormal stack (node :: cur_rev) ngroups
            | None => None
            end
      | MClass neg items pending dash =>
          match in_class neg items pending dash c with
          | Some (inl mode') => parse p' mode' stack cur_rev ngroups
          | Some (inr node) => parse p' MNormal stack (node :: cur_rev) ngroups
          | None => None
          end
      | MClassEscape neg items pending dash =>
          match
            if (c =? 115)%N then Some (ISpace false)
            else if (c =? 83)%N then Some (ISpace true)
            else if isIdentityEscape c || (c =? 45)%N then Some (IChar c)
            else None
          with
          | Some B =>
              match class_atom items pending dash B with
              | Some (items', pending') =>
                  parse p' (MClass neg items' pending' false) stack cur_rev ngroups
              | None => None
              end
          | None => None
          end
      end
  end.

(** [new RegExp(pattern, flags)] and the regular expression literals. *)
Definition create (pattern : str) (flags : string) : option t :=
  match parse pattern MNormal [] [] 0 with
  | Some ns =>
      let has f := existsb (Ascii.eqb f) (list_ascii_of_string flags) in
      Some {| nodes := ns; ignoreCase := has "i"%char; global := has "g"%char |}
  | None => None
  end.

(** ** The matcher *)

(** The captures of a match: group index and captured text, the latest
    capture of a group first. *)
Abbreviation Captures := (list (nat * str)) (only parsing).

Section Matcher.
Context {U : UnicodeData}.
Variable ic : bool.

(** The code units from [lo] on, [n] of them. *)
Fixpoint range_from (lo : char16) (n : nat) : list char16 :=
  match n with
  | 0 => []
  | S n' => lo :: range_from (lo + 1)%N n'
  end.

(** A range holds the code unit when one of its members is the same
    after Canonicalize. *)
Definition item_matches (ch : char16) (i : ClassItem) : bool :=
  match i with
  | IChar c => (Canonicalize ic c =? Canonicalize ic ch)%N
  | ISpace neg => xorb neg (isWhiteSpace ch)
  | IRange lo hi =>
      existsb (fun c => (Canonicalize ic c =? Canonicalize ic ch)%N)
              (range_from lo (N.to_nat (hi + 1 - lo)))
  end.

(** Does the one-character term accept the code unit?  White space and
    line terminators have no case mapping: the sets of [\s] and of the
    dot are the same with and without [ignoreCase]. *)
Definition atom_matches (a : Atom) (ch : char16) : bool :=
  match a with
  | AChar c => (Canonicalize ic c =? Canonicalize ic ch)%N
  | ADot => negb (isLineTerminator ch)
  | ASpace neg => xorb neg (isWhiteSpace ch)
  | AClass neg items => xorb neg (existsb (item_matches ch) items)
  end.

(** The inputs left after one accepted code unit. *)
Definition one (a : Atom) (s : str) : list str :=
  match s with
  | c :: s' => if atom_matches a c then [s'] else []
  | [] => []
  end.

(** The inputs left after a greedy repetition, in the order the
    backtracking matcher tries them: the longest repetition first. *)
Fixpoint star_greedy (a : Atom) (s : str) : list str :=
  match s with
  | c :: s' => if atom_matches a c then star_greedy a s' ++ [s] else [s]
  | [] => [[]]
  end.

(** The same for a lazy repetition: the shortest first. *)
Fixpoint star_lazy (a : Atom) (s : str) : list str :=
  s :: match s with
       | c :: s' => if atom_matches a c then star_lazy a s' else []
       | [] => []
       end.

Definition star (greedy : bool) (a : Atom) (s : str) : list str :=
  if greedy then star_greedy a s else star_lazy a s.

(** The inputs left after a repetition of [min] to [max] code units:
    one more code unit first when greedy, the end of the repetition
    first when lazy. *)
Fixpoint rep (greedy : bool) (a : Atom) (min : N) (max : option N) (s : str)
  : list str :=
  let stop := if (min =? 0)%N then [s] else [] in
  let more :=
    match max with
    | Some 0%N => []
    | _ =>
        match s with
        | c :: s' =>
            if atom_matches a c
            then rep greedy a (N.pred min) (option_map N.pred max) s'
            else []
        | [] => []
        end
    end in
  if greedy then more ++ stop else stop ++ more.

Definition quant (a : Atom) (q : Quant) (s : str) : list str :=
  match q with
  | One => one a s
  | Star g => star g a s
  | Plus g => flat_map (star g a) (one a s)
  | Opt g => if g then one a s ++ [s] else s :: one a s
  | Rep min max g => rep g a min max s
  end.


(** The text consumed between the input [s] and its suffix [s']. *)
Definition consumed (s s' : str) : str :=
  firstn (length s - length s') s.

(** All the ways the term matches at the head of the input, as the
    remaining input and the captures, in backtracking order. *)
Fixpoint m_node (n : Node) (st : str * Captures) {struct n}
  : list (str * Captures) :=
  match n with
  | Single a q => map (fun s' => (s', snd st)) (quant a q (fst st))
  | Group idx body =>
      map (fun r => (fst r, (idx, consumed (fst st) (fst r)) :: snd r))
          ((fix m_seq (ns : list Node) (st : str * Captures)
              : list (str * Captures) :=
              match ns with
              | [] => [st]
              | n' :: ns' => flat_map (m_seq ns') (m_node n' st)
              end) body st)
  end.

Fixpoint m_seq (ns : list Node) (st : str * Captures)
  : list (str * Captures) :=
  match ns with
  | [] => [st]
  | n :: ns' => flat_map (m_seq ns') (m_node n st)
  end.

(** ** The language of a pattern

    The texts a sequence of terms matches, with the captures before and
    after the match; the matcher above enumerates exactly these (lemma
    [m_seq_spec]). *)

Definition quant_lang (a : Atom) (q : Quant) (w : str) : Prop :=
  match q with
  | One => exists c, w = [c] /\ atom_matches a c = true
  | Star _ => forallb (atom_matches a) w = true
  | Plus _ => w <> [] /\ forallb (atom_matches a) w = true
  | Opt _ => w = [] \/ exists c, w = [c] /\ atom_matches a c = true
  | Rep min max _ =>
      (min <= N.of_nat (length w))%N /\
      match max with
      | Some m => (N.of_nat (length w) <= m)%N
      | None => True
      end /\
      forallb (atom_matches a) w = true
  end.

Inductive lang_node : Node -> str -> Captures -> Captures -> Prop :=
| lang_single a q w caps :
    quant_lang a q w -> lang_node (Single a q) w caps caps
| lang_group idx body w caps caps' :
    lang_seq body w caps caps' ->
    lang_node (Group idx body) w caps ((idx, w) :: caps')
with lang_seq : list Node -> str -> Captures -> Captures -> Prop :=
| lang_nil caps : lang_seq [] [] caps caps
| lang_cons n ns w1 w2 caps caps1 caps2 :
    lang_node n w1 caps caps1 -> lang_seq ns w2 caps1 caps2 ->
    lang_seq (n :: ns) (w1 ++ w2) caps caps2.

End Matcher.

(** The result of a successful match: [index], the matched text
    ([m[0]]), the captures and the input after the match. *)
Record MatchResult := {
  index : nat;
  matched : str;
  captures : Captures;
  after : str
}.

(** [m[i]] for a group index [i]; [None] is [undefined]. *)
Definition capture (m : MatchResult) (i : nat) : option str :=
  match find (fun c => Nat.eqb (fst c) i) (captures m) with
  | Some c => Some (snd c)
  | None => None
  end.

Section Exec.
Context {U : UnicodeData}.

(** The first way the pattern matches at the head of the input. *)
Definition match_here (r : t) (s : str) : option (str * Captures) :=
  hd_error (m_seq (ignoreCase r) (nodes r) (s, [])).

(** The leftmost match in [s], the input from position [i] on. *)
Fixpoint search (r : t) (s : str) (i : nat) : option MatchResult :=
  match match_here r s with
  | Some (rest, caps) =>
      Some {| index := i; matched := consumed s rest;
              captures := caps; after := rest |}
  | None =>
      match s with
      | [] => None
      | _ :: s' => search r s' (S i)
      end
  end.

(** [regex.exec(s)] for a regular expression whose [lastIndex] is
    [lastIndex]: the match and the new [lastIndex], which is reset to 0
    when there is no match.  Without the [g] flag the search starts at 0
    and [lastIndex] is left alone. *)
Definition exec (r : t) (s : str) (lastIndex : nat)
  : option MatchResult * nat :=
  if global r then
    if length s <? lastIndex then (None, 0)
    else match search r (skipn lastIndex s) lastIndex with
         | Some m => (Some m, index m + length (matched m))
         | None => (None, 0)
         end
  else (search r s 0, lastIndex).

(** [s.match(regex)] for a regular expression without the [g] flag. *)
Definition String_match (s : str) (r : t) : option MatchResult :=
  fst (exec r s 0).

(** [s.replace(regex, replacement)] for a regular expression with the
    [g] flag and a replacement text without [$]: every match, left to
    right and without overlap, is replaced; after an empty match the
    search moves on by one code unit, and it ends after an empty match
    at the end of the input.  [None]: out of fuel. *)
Fixpoint replace_loop (fuel : nat) (r : t) (replacement s : str)
  : option str :=
  match fuel with
  | 0 => None
  | S fuel' =>
      match search r s 0 with
      | None => Some s
      | Some m =>
          match
            match matched m, after m with
            | [], c :: rest =>
                match replace_loop fuel' r replacement rest with
                | Some out => Some (c :: out)
                | None => None
                end
            | [], [] => Some []
            | _, rest => replace_loop fuel' r replacement rest
            end
          with
          | Some out => Some (firstn (index m) s ++ replacement ++ out)
          | None => None
          end
      end
  end.

Definition String_replace (s : str) (r : t) (replacement : str)
  : option str :=
  replace_loop (S (length s)) r replacement s.

(** [s.split(regex)] for a pattern without groups (ECMAScript
    22.2.6.14): [cur] is the text between the end [p] of the last
    separator and the position [q] of the input [s]; a match at [q] that
    ends at [p] is skipped.  [None]: out of fuel. *)
Fixpoint split_loop (fuel : nat) (r : t) (cur s : str)
  : option (list str) :=
  match fuel with
  | 0 => None
  | S fuel' =>
      match s with
      | [] => Some [cur]
      | c :: s' =>
          match match_here r s with
          | Some (rest, _) =>
              if (length rest =? length s) && (length cur =? 0)
              then split_loop fuel' r (cur ++ [c]) s'
              else match split_loop fuel' r [] rest with
                   | Some parts => Some (cur :: parts)
                   | None => None
                   end
          | None => split_loop fuel' r (cur ++ [c]) s'
          end
      end
  end.

Definition String_split (s : str) (r : t) : option (list str) :=
  match s with
  | [] => match match_here r [] with Some _ => Some [] | None => Some [[]] end
  | _ => split_loop (S (2 * length s)) r [] s
  end.

End Exec.

End RegExp.

(* ================================================================== *)
(** * The program *)
(* ================================================================== *)

Module Server.

(** ** Values, objects, exceptions and effects *)

Inductive Value :=
| VNum (n : nat)
| VStr (s : str).

(** An object literal: its properties in the order they are written. *)
Definition Object := list (string * Value).

Definition get (o : Object) (key : string) : option Value :=
  match find (fun p => String.eqb (fst p) key) o with
  | Some p => Some (snd p)
  | None => None
  end.

Definition keys (o : Object) : list string := map fst o.

(** A thrown value, seen through its [message] property ([None]:
    [undefined]). *)
Record Exception := { message : option str }.

Inductive Result (A : Type) :=
| Ok (a : A)
| Throw (e : Exception).
Arguments Ok {A} a.
Arguments Throw {A} e.

(** What [new URL(...)] gives: the parts the program reads. *)
Record URLRecord := {
  protocol : str;
  pathname : str;
  searchParams : list (str * str)
}.

(** [searchParams.get(name)]: the first value of the name, or [null]. *)
Definition searchParams_get (u : URLRecord) (name : str) : option str :=
  match find (fun p => eqb_str (fst p) name) (searchParams u) with
  | Some p => Some (snd p)
  | None => None
  end.

(** The [Response] of [fetch]: its status and what [await
    response.text()] gives. *)
Record Response := { status : nat; text : Result str }.

(** A value of a property of the global object, as the top level of
    the module uses it: a string, or a value that is no string and has
    no method [match] (a number, a boolean, [null], [undefined], an
    object of the platform), with the TypeError that a call of its
    [match] throws: that [html.match] is not a function, or that the
    properties of [null] or [undefined] cannot be read. *)
Inductive GlobalValue :=
| GString (s : str)
| GOther (error : Exception).

(** The platform the program runs on: the WHATWG URL parser, the
    network, the [path] and [fs] modules, the process, the call
    [server.listen(port, callback)] of the [http] module, which throws
    when it refuses the port (a RangeError for a port out of range), and
    the global object. *)
Record Platform := {
  URL_new : str -> option str -> Result URLRecord;
  fetch : str -> Result Response;
  path_join : str -> str -> str;
  path_extname : str -> str;
  fs_readFile : str -> Result str;
  dirname : str;
  env_PORT : option str;
  require_main_is_module : bool;
  server_listen : str -> Result unit;
  global_object : string -> option GlobalValue
}.

(** The body given to [res.end]. *)
Inductive Body :=
| BJson (data : Object)     (* JSON.stringify(data) *)
| BText (s : str).

Inductive Event :=
| EFetch (url : str)
| ERespond (data : Object)
| EWriteHead (statusCode : nat) (contentType : str)
| EEnd (body : Body)
| EListen (port : str).

(** Computations: the events so far and the value or the exception. *)
Definition M (A : Type) : Type := list Event * Result A.

Definition ret {A} (a : A) : M A := ([], Ok a).
Definition throw {A} (e : Exception) : M A := ([], Throw e).
Definition tell (es : list Event) : M unit := (es, Ok tt).
Definition lift {A} (r : Result A) : M A := ([], r).

Definition bind {A B} (m : M A) (k : A -> M B) : M B :=
  match m with
  | (es, Ok a) => let '(es', r) := k a in (es ++ es', r)
  | (es, Throw e) => (es, Throw e)
  end.

(** [try { body } catch (err) { handler }]. *)
Definition try_catch {A} (body : M A) (handler : Exception -> M A) : M A :=
  match body with
  | (es, Ok a) => (es, Ok a)
  | (es, Throw e) => let '(es', r) := handler e in (es ++ es', r)
  end.

Definition events {A} (m : M A) : list Event := fst m.

Notation "x <- m ;; k" := (bind m (fun x => k))
  (at level 61, m at next level, right associativity).
Notation "m ;;; k" := (bind m (fun _ => k))
  (at level 61, right associativity).
Notation "'let?' x := e 'in' k" :=
  (match e with Some x => k | None => None end)
  (at level 61, x pattern, e at next level, right associativity).

(** An exception for the failure of an extraction function: a pattern
    that does not compile. *)
Definition SyntaxError : Exception :=
  {| message := Some (js "Invalid regular expression") |}.

Definition of_option {A} (o : option A) : M A :=
  match o with Some a => ret a | None => throw SyntaxError end.

(** [x || y] on strings: the empty string is falsy. *)
Definition truthy (s : str) : bool :=
  match s with [] => false | _ => true end.

Section Program.
Context {U : UnicodeData}.

(** ** The extraction functions

    [None]: the pattern built from the argument is a SyntaxError or is
    outside the fragment of [RegExp.parse], or [match[1]] is
    [undefined]. *)

Definition getTagContent (html tagName : str) : option str :=
  let? source := template [Raw "<"; Subst tagName;
                           Raw "[^>]*>([\s\S]*?)<\\/"; Subst tagName;
                           Raw ">"] in
  let? regex := RegExp.create source "i" in
  match RegExp.String_match html regex with
  | Some m => let? inner := RegExp.capture m 1 in Some (trim inner)
  | None => Some []
  end.

Definition getMetaContent (html key : str) : option str :=
  (* name attribute *)
  let? source := template [Raw ("<meta[^>]*name=[" ++ DQUOTE ++ "']");
                           Subst key;
                           Raw ("[" ++ DQUOTE ++ "'][^>]*content=[" ++ DQUOTE
                                ++ "']([^" ++ DQUOTE ++ "']*)[" ++ DQUOTE
                                ++ "'][^>]*>")] in
  let? regex := RegExp.create source "i" in
  match RegExp.String_match html regex with
  | Some m => RegExp.capture m 1
  | None =>
      (* property attribute *)
      let? source := template [Raw ("<meta[^>]*property=[" ++ DQUOTE ++ "']");
                               Subst key;
                               Raw ("[" ++ DQUOTE ++ "'][^>]*content=["
                                    ++ DQUOTE ++ "']([^" ++ DQUOTE ++ "']*)["
                                    ++ DQUOTE ++ "'][^>]*>")] in
      let? regex := RegExp.create source "i" in
      match RegExp.String_match html regex with
      | Some m => RegExp.capture m 1
      | None => Some []
      end
  end.

(** The loop of [countWordsInPTags]: one iteration for every result of
    [regex.exec(html)], the state being [regex.lastIndex] and
    [wordCount].  [None]: out of fuel. *)
Fixpoint countWords_loop (fuel : nat) (regex tags spaces : RegExp.t)
  (html : str) (lastIndex wordCount : nat) : option nat :=
  match fuel with
  | 0 => None
  | S fuel' =>
      match RegExp.exec regex html lastIndex with
      | (None, _) => Some wordCount
      | (Some m, lastIndex') =>
          let? inner := RegExp.capture m 1 in
          (* Remove HTML tags from the paragraph content *)
          let? text := RegExp.String_replace inner tags (js " ") in
          (* Split on whitespace and filter out empty strings *)
          let? parts := RegExp.String_split (trim text) spaces in
          let words := filter truthy parts in
          countWords_loop fuel' regex tags spaces html lastIndex'
                          (wordCount + length words)
      end
  end.

Definition countWordsInPTags (html : str) : option nat :=
  let? regex := RegExp.create (js "<p[^>]*>(.*?)<\/?p>") "gi" in
  let? tags := RegExp.create (js "<[^>]+>") "g" in
  let? spaces := RegExp.create (js "\s+") EmptyString in
  countWords_loop (S (length html)) regex tags spaces html 0 0.

(** helper to get the document title with fallbacks *)
Definition getDocumentTitle (html : str) : option str :=
  let? titleTag := getTagContent html (js "title") in
  if truthy titleTag then Some titleTag else
  let? ogTitle := getMetaContent html (js "og:title") in
  if truthy ogTitle then Some ogTitle else
  getMetaContent html (js "title").

(** ** The analysis request *)

Definition invalid_protocol_message : str :=
  js "Invalid protocol; only http and https are supported.".

(** The object built by [handleAnalysis] from the body and the status of
    the response (the statements under "Extract meta information"). *)
Definition analysis (html : str) (statusCode : nat) : option Object :=
  let? title := getTagContent html (js "title") in
  let? metaDescription := getMetaContent html (js "description") in
  let? wordCount := countWordsInPTags html in
  Some [ ("statusCode", VNum statusCode);
         ("metaTitle", VStr title);
         ("metaTitleLength", VNum (length title));
         ("metaDescription", VStr metaDescription);
         ("metaDescriptionLength", VNum (length metaDescription));
         ("wordCountInPTags", VNum wordCount) ]%string.

(** [{ error: err.message || 'Failed to fetch or process the URL.' }] *)
Definition error_of (err : Exception) : Object :=
  [ ("error"%string,
     VStr (match message err with
           | Some (c :: m) => c :: m
           | _ => js "Failed to fetch or process the URL."
           end)) ].

(** [respond] is the callback that sends the JSON response; it is taken
    to return normally. *)
Definition handleAnalysis (P : Platform) (targetUrl : str)
  (respond : Object -> list Event) : M unit :=
  try_catch
    ((* Ensure the URL uses http or https *)
     parsedUrl <- lift (URL_new P targetUrl None) ;;
     if negb (existsb (eqb_str (protocol parsedUrl)) [js "http:"; js "https:"])
     then tell (respond [("error"%string, VStr invalid_protocol_message)])
     else
       (* Fetch the remote page. *)
       tell [EFetch targetUrl] ;;;
       response <- lift (fetch P targetUrl) ;;
       (* Read the response body as text for parsing *)
       html <- lift (text response) ;;
       result <- of_option (analysis html (status response)) ;;
       tell (respond result))
    (fun err => tell (respond (error_of err))).

(** ** The HTTP server *)

Record Request := { method : str; url : str; host : str }.

Definition json_type : str := js "application/json".

(** [s.replace(/^\/+/, '')]: the slashes at the start are removed. *)
Fixpoint strip_leading_slashes (s : str) : str :=
  match s with
  | 47%N :: s' => strip_leading_slashes s'
  | _ => s
  end.

(** [toLowerCase] on the letters of ASCII, which decide the lookup in
    [mimeTypes]: no code unit above ASCII has a lower case among the
    letters of its keys. *)
Definition toLowerCase_ascii (s : str) : str :=
  map (fun c => if ((65 <=? c) && (c <=? 90))%N then (c + 32)%N else c) s.

Definition mimeTypes : list (str * str) :=
  [ (js ".html", js "text/html; charset=utf-8");
    (js ".css", js "text/css; charset=utf-8");
    (js ".js", js "application/javascript; charset=utf-8");
    (js ".json", js "application/json; charset=utf-8") ].

Definition mimeType (ext : str) : str :=
  match find (fun p => eqb_str (fst p) ext) mimeTypes with
  | Some p => snd p
  | None => js "application/octet-stream"
  end.

(** [const publicDir = path.join(__dirname, 'public')] *)
Definition publicDir (P : Platform) : str :=
  path_join P (dirname P) (js "public").

(** The callback of [http.createServer]. *)
Definition server (P : Platform) (req : Request) : M unit :=
  parsed <- lift (URL_new P (url req) (Some (js "http://" ++ host req))) ;;
  if eqb_str (method req) (js "GET") && eqb_str (pathname parsed) (js "/analyze")
  then
    match searchParams_get parsed (js "url") with
    | Some (c :: target) =>
        handleAnalysis P (c :: target)
          (fun data => [EWriteHead 200 json_type; EEnd (BJson data)])
    | _ =>
        tell [EWriteHead 400 json_type;
              EEnd (BJson [("error"%string, VStr (js "Missing url parameter."))])]
    end
  else
    (* Serve static assets from the public directory *)
    let filePath :=
      if eqb_str (pathname parsed) (js "/") || eqb_str (pathname parsed) []
      then path_join P (publicDir P) (js "index.html")
      else path_join P (publicDir P) (strip_leading_slashes (pathname parsed)) in
    match fs_readFile P filePath with
    | Throw _ => tell [EWriteHead 404 (js "text/plain"); EEnd (BText (js "Not found"))]
    | Ok content =>
        let ext := toLowerCase_ascii (path_extname P filePath) in
        tell [EWriteHead 200 (mimeType ext); EEnd (BText content)]
    end.

(** ** The evaluation of the module

    The statements of the top level in their order, after the [require]
    calls and [publicDir], which bind constants.  The function
    declarations are hoisted and every identifier is bound by the module
    itself, except [html] in the two statements after
    [getDocumentTitle]: no declaration of the module scope binds it (the
    [html] of [handleAnalysis] is local to its [try] block), so it is
    looked up in the global object and its evaluation throws a
    ReferenceError when the global object has no such property. *)

Definition ReferenceError (name : string) : Exception :=
  {| message := Some (js name ++ js " is not defined") |}.

Definition global_reference (P : Platform) (name : string) : M GlobalValue :=
  match global_object P name with
  | Some v => ret v
  | None => throw (ReferenceError name)
  end.

Definition TypeError (what : string) : Exception :=
  {| message := Some (js what) |}.

(** The receiver of [html.match(regex)] in the extraction functions:
    for a value that is no string the call throws. *)
Definition match_receiver (v : GlobalValue) : M str :=
  match v with
  | GString s => ret s
  | GOther error => throw error
  end.

(** The value of [module.exports] once the module is evaluated: the
    server, as its request callback. *)
Record Exports := { exported_server : Request -> M unit }.

Definition module_top_level (P : Platform) : M Exports :=
  (* const title = getDocumentTitle(html); *)
  html <- global_reference P "html" ;;
  html <- match_receiver html ;;
  title <- of_option (getDocumentTitle html) ;;
  (* const metaDescription = getMetaContent(html, 'description'); *)
  html <- global_reference P "html" ;;
  html <- match_receiver html ;;
  metaDescription <- of_option (getMetaContent html (js "description")) ;;
  (* const server = http.createServer(...) *)
  let the_server := server P in
  (* Start the server on port 3000 if this file is executed directly. *)
  (if require_main_is_module P
   then
     (* const port = process.env.PORT || 3000; *)
     let port := match env_PORT P with
                 | Some (c :: p) => c :: p
                 | _ => js "3000"
                 end in
     lift (server_listen P port) ;;;
     tell [EListen port]
   else ret tt) ;;;
  (* module.exports = { server }; *)
  ret {| exported_server := the_server |}.

End Program.

End Server.

(* ================================================================== *)
(** * The compiled patterns and the texts they match *)
(* ================================================================== *)

Module Shape.
Import RegExp Server.

(** A pattern character as a term. *)
Definition lit (c : char16) : Node := Single (AChar c) One.
Definition lits (cs : str) : list Node := map lit cs.

(** The classes of the program's patterns. *)
Definition not_gt : Atom := AClass true [IChar 62%N].
Definition quote : Atom := AClass false [IChar 34%N; IChar 39%N].
Definition not_quote : Atom := AClass true [IChar 34%N; IChar 39%N].
Definition s_or_S : Atom := AClass false [IChar 115%N; IChar 83%N].

(** The pattern of [getTagContent] for a tag name of pattern
    characters. *)
Definition tag_nodes (tagName : str) : list Node :=
  lit 60%N :: lits tagName ++
  [Single not_gt (Star true); lit 62%N;
   Group 1 [Single s_or_S (Star false)]; lit 60%N; lit 47%N] ++
  lits tagName ++ [lit 62%N].

(** The patterns of [getMetaContent] for the attribute [attr] ([name]
    or [property]) and a key of pattern characters. *)
Definition meta_nodes (attr : string) (key : str) : list Node :=
  lits (js "<meta") ++ [Single not_gt (Star true)] ++
  lits (js attr ++ js "=") ++ [Single quote One] ++ lits key ++
  [Single quote One; Single not_gt (Star true)] ++ lits (js "content=") ++
  [Single quote One; Group 1 [Single not_quote (Star true)];
   Single quote One; Single not_gt (Star true); lit 62%N].

(** The patterns of [countWordsInPTags]. *)
Definition p_regex : RegExp.t :=
  {| nodes := [lit 60%N; lit 112%N; Single not_gt (Star true); lit 62%N;
               Group 1 [Single ADot (Star false)];
               lit 60%N; Single (AChar 47%N) (Opt true); lit 112%N; lit 62%N];
     ignoreCase := true; global := true |}.

Definition tags_regex : RegExp.t :=
  {| nodes := [lit 60%N; Single not_gt (Plus true); lit 62%N];
     ignoreCase := false; global := true |}.

Definition spaces_regex : RegExp.t :=
  {| nodes := [Single (ASpace false) (Plus true)];
     ignoreCase := false; global := false |}.

Definition tag_regex (tagName : str) : RegExp.t :=
  {| nodes := tag_nodes tagName; ignoreCase := true; global := false |}.

Definition meta_regex (attr : string) (key : str) : RegExp.t :=
  {| nodes := meta_nodes attr key; ignoreCase := true; global := false |}.

(** The span pattern after its group and the [<]: the rest of the tag
    that ends the span. *)
Definition closer : list Node :=
  [Single (AChar 47%N) (Opt true); lit 112%N; lit 62%N].

(** A sequence of terms without groups. *)
Definition only_singles (ns : list Node) : bool :=
  forallb (fun n => match n with Single _ _ => true | Group _ _ => false end) ns.

(** A key or tag name without syntax characters, which the pattern
    takes as it is written. *)
Definition pattern_characters (key : str) : Prop :=
  forallb (fun c => negb (isSyntaxCharacter c)) key = true.

Definition is_quote (c : char16) : bool := ((c =? 34) || (c =? 39))%N.

Definition no_gt (s : str) : Prop :=
  forallb (fun c => negb (c =? 62)%N) s = true.

Definition no_quote (s : str) : Prop :=
  forallb (fun c => negb (is_quote c)) s = true.

Definition count_quotes (s : str) : nat := length (filter is_quote s).

(** [t] occurs in [s], code unit for code unit. *)
Fixpoint starts_with (t s : str) : bool :=
  match t, s with
  | [], _ => true
  | c :: t', d :: s' => (c =? d)%N && starts_with t' s'
  | _ :: _, [] => false
  end.

Fixpoint occurs (t s : str) : bool :=
  starts_with t s || match s with [] => false | _ :: s' => occurs t s' end.

Definition no_line_terminator (s : str) : Prop :=
  forallb (fun c => negb (isLineTerminator c)) s = true.

Section Texts.
Context {U : UnicodeData}.

(** Equality of texts up to letter case, as the [i] flag compares them. *)
Definition same_ci (a b : str) : Prop :=
  map (Canonicalize true) a = map (Canonicalize true) b.

(** [s] begins with the text of a meta tag for [attr] and [key] whose
    content is [v], and [rest] follows it: [<meta], text without [>],
    the attribute name and [=], a quote, the key up to letter case, a
    quote, text without [>], [content=], a quote, [v] without quotes, a
    quote, text without [>], and [>]. *)
Definition meta_text (attr : string) (key s v rest : str) : Prop :=
  exists m a n q1 k q2 b c q3 q4 d,
    s = m ++ a ++ n ++ q1 :: k ++ q2 :: b ++ c ++ q3 :: v ++ q4 :: d
        ++ 62%N :: rest /\
    same_ci m (js "<meta") /\ no_gt a /\
    same_ci n (js attr ++ js "=") /\ is_quote q1 = true /\
    same_ci k key /\ is_quote q2 = true /\ no_gt b /\
    same_ci c (js "content=") /\ is_quote q3 = true /\
    no_quote v /\ is_quote q4 = true /\ no_gt d.

(** Some position of [html] begins a meta tag text for [attr] and
    [key]. *)
Definition has_meta_text (attr : string) (key html : str) : Prop :=
  exists pre s v rest, html = pre ++ s /\ meta_text attr key s v rest.

(** [v] is the content of a meta tag text that begins at the leftmost
    position of [html] where one begins. *)
Definition leftmost_meta_text (attr : string) (key html v : str) : Prop :=
  exists pre s rest,
    html = pre ++ s /\ meta_text attr key s v rest /\
    forall p1 p2 v' rest',
      pre = p1 ++ p2 -> p2 <> [] -> ~ meta_text attr key (p2 ++ s) v' rest'.

(** [s] starts with the text [t], up to letter case. *)
Fixpoint starts_ci (t s : str) : bool :=
  match t, s with
  | [], _ => true
  | c :: t', ch :: s' =>
      (Canonicalize true ch =? Canonicalize true c)%N && starts_ci t' s'
  | _ :: _, [] => false
  end.



(** The results of the calls [regex.exec(html)] of a loop that runs
    until the result is [null]. *)
Fixpoint exec_all (fuel : nat) (regex : RegExp.t) (html : str)
  (lastIndex : nat) : list MatchResult :=
  match fuel with
  | 0 => []
  | S fuel' =>
      match exec regex html lastIndex with
      | (None, _) => []
      | (Some m, lastIndex') => m :: exec_all fuel' regex html lastIndex'
      end
  end.

(** The paragraph spans [countWordsInPTags] finds in [html]. *)
Definition paragraph_spans (html : str) : list MatchResult :=
  exec_all (S (length html)) p_regex html 0.

(** The words the body of the loop counts in a span. *)
Definition words_in (m : MatchResult) : nat :=
  match capture m 1 with
  | Some inner =>
      match String_replace inner tags_regex (js " ") with
      | Some text =>
          match String_split (trim text) spaces_regex with
          | Some parts => length (filter truthy parts)
          | None => 0
          end
      | None => 0
      end
  | None => 0
  end.

End Texts.

(** A text without [<]: no tag begins in it. *)
Definition no_lt (s : str) : Prop :=
  forallb (fun c => negb (c =? 60)%N) s = true.

(** The number of [<] in a text. *)
Definition count_lt (s : str) : nat := length (filter (N.eqb 60%N) s).

(** A text made of the letter s in its two cases. *)
Definition only_s (s : str) : Prop :=
  forallb (fun c => (c =? 115) || (c =? 83))%N s = true.

(** The words of a text: its maximal runs of code units that are no
    white space.  [in_word]: the code unit before belongs to a word. *)
Fixpoint count_words (in_word : bool) (s : str) : nat :=
  match s with
  | [] => 0
  | c :: s' =>
      if isWhiteSpace c then count_words false s'
      else (if in_word then 0 else 1) + count_words true s'
  end.

(** The content of a paragraph: texts and the tags written in them,
    a tag by what stands between its [<] and its [>]. *)
Inductive Inline :=
| Text (t : str)
| Tag (inside : str).

Definition render_inline (i : Inline) : str :=
  match i with
  | Text t => t
  | Tag inside => 60%N :: inside ++ [62%N]
  end.

(** What a reader sees of it, a tag being a gap. *)
Definition visible (i : Inline) : str :=
  match i with
  | Text t => t
  | Tag _ => js " "
  end.

(** A paragraph as it is written in a document: the text before it,
    its opening tag as the tag name and the attributes, its content and
    the tag that ends it. *)
Record Paragraph := {
  before : str;
  opening : str;
  attributes : str;
  body : list Inline;
  closing : str
}.

Definition render_body (items : list Inline) : str :=
  concat (map render_inline items).

Definition render (p : Paragraph) : str :=
  before p ++ opening p ++ attributes p ++ 62%N :: render_body (body p)
  ++ closing p.

(** The words of a paragraph: those of its texts, which a tag
    separates like a space. *)
Definition words (p : Paragraph) : nat :=
  count_words false (concat (map visible (body p))).

(** A text of a paragraph on one line holds no [<]; a tag of it is not
    empty, holds no [<] and no [>] inside, and is neither [<p>] nor
    [</p>]. *)
Definition inline_ok {U : UnicodeData} (i : Inline) : Prop :=
  match i with
  | Text t => no_lt t /\ no_line_terminator t
  | Tag inside =>
      inside <> [] /\ no_lt inside /\ no_gt inside /\
      no_line_terminator inside /\
      ~ same_ci inside (js "p") /\ ~ same_ci inside (js "/p")
  end.

(** A paragraph on one line, after a text without tag: its opening tag
    is [<p], in any case, with attributes, and it ends with [</p>] or
    with [<p>]. *)
Definition one_line {U : UnicodeData} (p : Paragraph) : Prop :=
  no_lt (before p) /\ same_ci (opening p) (js "<p") /\
  no_gt (attributes p) /\ Forall inline_ok (body p) /\
  (same_ci (closing p) (js "</p>") \/ same_ci (closing p) (js "<p>")).

End Shape.

(* ================================================================== *)
(** * Platforms to run the program on *)
(* ================================================================== *)

Module Demo.
Import Server.

(** A platform without network: its URL parser knows the scheme [ftp],
    resolves a request path against its base as it stands and reads the
    query of [/analyze?url=...]; every fetch fails, and the global
    object has the properties of Node.js that the program could name. *)
Definition offline : Platform :=
  {| URL_new := fun input base =>
       match base with
       | Some _ =>
           if Shape.starts_with (js "/analyze?url=") input
           then Ok {| protocol := js "http:"; pathname := js "/analyze";
                      searchParams := [(js "url", skipn 13 input)] |}
           else Ok {| protocol := js "http:"; pathname := input;
                      searchParams := [] |}
       | None =>
           if Shape.starts_ci (U := ascii_case_table) (js "ftp://") input
           then Ok {| protocol := js "ftp:"; pathname := js "/";
                      searchParams := [] |}
           else Throw {| message := Some (js "Invalid URL") |}
       end;
     fetch := fun _ => Throw {| message := Some (js "fetch failed") |};
     path_join := fun a b => a ++ js "/" ++ b;
     path_extname := fun _ => [];
     fs_readFile := fun _ => Throw {| message := None |};
     dirname := js "/srv";
     env_PORT := None;
     require_main_is_module := true;
     server_listen := fun _ => Ok tt;
     global_object := fun name =>
       if existsb (String.eqb name)
            ["globalThis"; "process"; "console"; "fetch"; "Buffer"]%string
       then Some (GOther (TypeError "html.match is not a function"))
       else None |}.

(** A platform with a network: its URL parser knows the schemes [http]
    and [ftp], every fetch is answered by a page with the status 404,
    the file system holds the index page only, the port is set, and a
    script has defined a global [html]. *)
Definition online : Platform :=
  {| URL_new := fun input base =>
       match base with
       | Some _ =>
           if Shape.starts_with (js "/analyze?url=") input
           then Ok {| protocol := js "http:"; pathname := js "/analyze";
                      searchParams := [(js "url", skipn 13 input)] |}
           else Ok {| protocol := js "http:"; pathname := input;
                      searchParams := [] |}
       | None =>
           if Shape.starts_ci (U := ascii_case_table) (js "http://") input
           then Ok {| protocol := js "http:"; pathname := js "/";
                      searchParams := [] |}
           else if Shape.starts_ci (U := ascii_case_table) (js "ftp://") input
           then Ok {| protocol := js "ftp:"; pathname := js "/";
                      searchParams := [] |}
           else Throw {| message := Some (js "Invalid URL") |}
       end;
     fetch := fun _ =>
       Ok {| status := 404;
             text := Ok (js "<title>ss</title><p>page not found</p>") |};
     path_join := fun a b => a ++ js "/" ++ b;
     path_extname := fun _ => js ".HTML";
     fs_readFile := fun path =>
       if eqb_str path (js "/srv/public/index.html")
       then Ok (js "<html></html>")
       else Throw {| message := Some (js "ENOENT") |};
     dirname := js "/srv";
     env_PORT := Some (js "8080");
     require_main_is_module := true;
     server_listen := fun port =>
       if eqb_str port (js "8080") then Ok tt
       else Throw {| message := Some (js "options.port should be >= 0 and < 65536") |};
     global_object := fun name =>
       if String.eqb name "html" then Some (GString (js "<title>s</title>"))
       else None |}.

(** A document of two paragraphs, the first one with tags in its
    content, the second one ended by the opening tag of a third. *)
Definition article : list Shape.Paragraph :=
  [ {| Shape.before := js "intro "; Shape.opening := js "<P";
       Shape.attributes := js " class=a";
       Shape.body := [Shape.Text (js " Hello, "); Shape.Tag (js "b");
                      Shape.Text (js "brave"); Shape.Tag (js "/b");
                      Shape.Text (js "  new world ")];
       Shape.closing := js "</p>" |};
    {| Shape.before := js " and "; Shape.opening := js "<p";
       Shape.attributes := []; Shape.body := [Shape.Text (js "two words")];
       Shape.closing := js "<P>" |} ].

End Demo.

(* ================================================================== *)
(** * Facts about the matcher *)
(* ================================================================== *)

Module RegExpFacts.
Import RegExp.

Section Induction.
Variable P : Node -> Prop.
Hypothesis P_single : forall a q, P (Single a q).
Hypothesis P_group : forall idx body, Forall P body -> P (Group idx body).

(** Induction on terms, through the bodies of groups. *)
Fixpoint Node_induction (n : Node) : P n :=
  match n with
  | Single a q => P_single a q
  | Group idx body =>
      P_group idx body
        ((fix all (l : list Node) : Forall P l :=
            match l with
            | [] => Forall_nil P
            | x :: l' => Forall_cons x (Node_induction x) (all l')
            end) body)
  end.
End Induction.

Section MatcherFacts.
Context {U : UnicodeData}.
Variable ic : bool.

Lemma star_greedy_spec a s s' :
  In s' (star_greedy ic a s) <->
  exists w, s = w ++ s' /\ forallb (atom_matches ic a) w = true.
Proof.
  induction s as [|c s0 IH]; simpl.
  - split.
    + intros [<-|[]]. exists []. auto.
    + intros (w & E & _). symmetry in E. apply app_eq_nil in E as [_ ->]. auto.
  - destruct (atom_matches ic a c) eqn:Hc.
    + rewrite in_app_iff, IH. simpl. split.
      * intros [(w & -> & Hw)|[<-|[]]].
        -- exists (c :: w). simpl. rewrite Hc. auto.
        -- exists []. auto.
      * intros (w & E & Hw). destruct w as [|c' w]; simpl in *.
        -- right. left. congruence.
        -- left. injection E as <- ->. rewrite Hc in Hw. exists w. auto.
    + simpl. split.
      * intros [<-|[]]. exists []. auto.
      * intros (w & E & Hw). destruct w as [|c' w]; simpl in *.
        -- left. congruence.
        -- injection E as <- ->. rewrite Hc in Hw. discriminate.
Qed.

Lemma star_lazy_spec a s s' :
  In s' (star_lazy ic a s) <->
  exists w, s = w ++ s' /\ forallb (atom_matches ic a) w = true.
Proof.
  induction s as [|c s0 IH]; simpl.
  - split.
    + intros [<-|[]]. exists []. auto.
    + intros (w & E & _). symmetry in E. apply app_eq_nil in E as [_ ->]. auto.
  - destruct (atom_matches ic a c) eqn:Hc.
    + rewrite IH. split.
      * intros [<-|(w & -> & Hw)].
        -- exists []. auto.
        -- exists (c :: w). simpl. rewrite Hc. auto.
      * intros (w & E & Hw). destruct w as [|c' w]; simpl in *.
        -- left. congruence.
        -- right. injection E as <- ->. rewrite Hc in Hw. exists w. auto.
    + split.
      * intros [<-|[]]. exists []. auto.
      * intros (w & E & Hw). destruct w as [|c' w]; simpl in *.
        -- left. congruence.
        -- injection E as <- ->. rewrite Hc in Hw. discriminate.
Qed.

Lemma star_spec g a s s' :
  In s' (star ic g a s) <->
  exists w, s = w ++ s' /\ forallb (atom_matches ic a) w = true.
Proof.
  destruct g; [apply star_greedy_spec | apply star_lazy_spec].
Qed.

Lemma one_spec a s s' :
  In s' (one ic a s) <->
  exists c, s = c :: s' /\ atom_matches ic a c = true.
Proof.
  destruct s as [|c s0]; simpl.
  - split; [tauto | intros (c & E & _); discriminate].
  - destruct (atom_matches ic a c) eqn:Hc; simpl.
    + split.
      * intros [<-|[]]. eauto.
      * intros (c' & E & _). left. congruence.
    + split; [tauto|]. intros (c' & E & Hc'). congruence.
Qed.

Lemma rep_spec g a s s' :
  forall min max,
    In s' (rep ic g a min max s) <->
    exists w, s = w ++ s' /\ quant_lang ic a (Rep min max g) w.
Proof.
  assert (Hin : forall (A B : list (list N)) x,
             In x (if g then A ++ B else B ++ A) <-> In x B \/ In x A)
    by (intros; destruct g; rewrite in_app_iff; tauto).
  assert (Hstop : forall (min : N) s1,
             In s' (if (min =? 0)%N then [s1] else []) <-> min = 0%N /\ s1 = s')
    by (intros min s1; destruct (N.eqb_spec min 0); simpl; intuition congruence).
  induction s as [|c s0 IH]; intros min max; cbn [rep quant_lang];
    rewrite Hin, Hstop.
  - split.
    + intros [[-> <-]|H].
      * exists []. cbn. repeat split; try lia. destruct max; [lia | exact I].
      * destruct max as [[|m]|]; destruct H.
    + intros (w & E & Hmin & _). symmetry in E.
      apply app_eq_nil in E as [-> ->]. cbn in Hmin. left. split; [lia | auto].
  - split.
    + intros [[-> <-]|H].
      * exists []. cbn. repeat split; try lia. destruct max; [lia | exact I].
      * assert (Hmore : atom_matches ic a c = true /\
                        max <> Some 0%N /\
                        In s' (rep ic g a (N.pred min) (option_map N.pred max) s0)).
        { destruct max as [[|m]|]; [destruct H| |];
            (destruct (atom_matches ic a c); [|destruct H]);
            repeat split; auto; discriminate. }
        destruct Hmore as (Hc & Hmax & Hrep).
        apply IH in Hrep as (w & -> & Hmin & Hm & Hw).
        exists (c :: w). cbn [app length forallb]. rewrite Hc, Hw.
        repeat split; try lia.
        destruct max as [m|]; [|exact I]. cbn [option_map] in Hm.
        assert (m <> 0%N) by congruence. lia.
    + intros (w & E & Hmin & Hm & Hw). destruct w as [|c' w]; cbn [app] in E.
      * left. cbn in Hmin. split; [lia | auto].
      * right. injection E as <- ->. cbn [forallb length] in *.
        apply andb_true_iff in Hw as [Hc Hw].
        assert (Hrep : In s' (rep ic g a (N.pred min) (option_map N.pred max)
                                  (w ++ s'))).
        { apply IH. exists w. repeat split; auto; try lia.
          destruct max as [m|]; [cbn [option_map]; lia | exact I]. }
        destruct max as [[|m]|]; [lia| |]; rewrite Hc; exact Hrep.
Qed.

(** The matcher of a quantified one-character term is sound and
    complete for its language. *)
Lemma quant_spec a q s s' :
  In s' (quant ic a q s) <->
  exists w, s = w ++ s' /\ quant_lang ic a q w.
Proof.
  destruct q as [|g|g|g|min max g]; simpl; [| | | |apply rep_spec].
  - rewrite one_spec. split.
    + intros (c & -> & Hc). exists [c]. eauto.
    + intros (w & -> & c & -> & Hc). exists c. auto.
  - apply star_spec.
  - rewrite in_flat_map. split.
    + intros (s1 & H1 & H2). apply one_spec in H1 as (c & -> & Hc).
      apply star_spec in H2 as (w & -> & Hw).
      exists (c :: w). simpl. rewrite Hc. repeat split; auto. discriminate.
    + intros (w & -> & Hne & Hw). destruct w as [|c w]; [congruence|].
      simpl in Hw. apply andb_true_iff in Hw as [Hc Hw].
      exists (w ++ s'). split.
      * apply one_spec. exists c. auto.
      * apply star_spec. eauto.
  - assert (E : In s' (if g then one ic a s ++ [s] else s :: one ic a s) <->
                s' = s \/ In s' (one ic a s)).
    { destruct g; simpl; [rewrite in_app_iff; simpl|]; intuition congruence. }
    rewrite E, one_spec. split.
    + intros [->|(c & -> & Hc)].
      * exists []. auto.
      * exists [c]. split; auto. right. eauto.
    + intros (w & -> & [->|(c & -> & Hc)]); [left|right]; auto.
      exists c. auto.
Qed.

Lemma m_node_group idx body st :
  m_node ic (Group idx body) st =
  map (fun r => (fst r, (idx, consumed (fst st) (fst r)) :: snd r))
      (m_seq ic body st).
Proof.
  reflexivity.
Qed.

Lemma consumed_app w s' : consumed (w ++ s') s' = w.
Proof.
  unfold consumed. rewrite length_app, Nat.add_sub.
  rewrite firstn_app, firstn_all, Nat.sub_diag. simpl. apply app_nil_r.
Qed.

Lemma m_seq_cons n ns st :
  m_seq ic (n :: ns) st = flat_map (m_seq ic ns) (m_node ic n st).
Proof. reflexivity. Qed.

(** The matcher enumerates the language: an outcome of the matcher is a
    split of the input into a text of the language and the rest, and
    every such split is an outcome. *)
Lemma m_node_spec n :
  forall s caps s' caps',
    In (s', caps') (m_node ic n (s, caps)) <->
    exists w, s = w ++ s' /\ lang_node ic n w caps caps'.
Proof.
  induction n as [a q|idx body IH] using Node_induction; intros s caps s' caps'.
  - simpl. rewrite in_map_iff. split.
    + intros (x & E & Hx). injection E as -> <-.
      apply quant_spec in Hx as (w & -> & Hw).
      exists w. split; auto. now constructor.
    + intros (w & -> & Hl). inversion Hl; subst.
      exists s'. split; auto. apply quant_spec. eauto.
  - rewrite m_node_group, in_map_iff.
    assert (Hseq : forall s caps s' caps',
               In (s', caps') (m_seq ic body (s, caps)) <->
               exists w, s = w ++ s' /\ lang_seq ic body w caps caps').
    { clear s caps s' caps'.
      induction IH as [|n ns Hn _ IHns]; intros s caps s' caps'.
      - simpl. split.
        + intros [E|[]]. injection E as -> ->. exists []. split; auto. constructor.
        + intros (w & -> & Hl). inversion Hl; subst. now left.
      - rewrite m_seq_cons, in_flat_map. split.
        + intros ([s1 caps1] & H1 & H2).
          apply Hn in H1 as (w1 & -> & L1).
          apply IHns in H2 as (w2 & -> & L2).
          exists (w1 ++ w2). rewrite <- app_assoc. split; auto.
          econstructor; eauto.
        + intros (w & -> & Hl). inversion Hl; subst.
          exists (w2 ++ s', caps1). split.
          * apply Hn. exists w1. rewrite <- app_assoc. auto.
          * apply IHns. eauto. }
    split.
    + intros ([s1 caps1] & E & Hx). simpl in E. injection E as -> <-.
      apply Hseq in Hx as (w & -> & Hl).
      exists w. split; auto. rewrite consumed_app. now constructor.
    + intros (w & -> & Hl). inversion Hl; subst.
      exists (s', caps'0). simpl. rewrite consumed_app. split; auto.
      apply Hseq. eauto.
Qed.

Lemma m_seq_spec ns :
  forall s caps s' caps',
    In (s', caps') (m_seq ic ns (s, caps)) <->
    exists w, s = w ++ s' /\ lang_seq ic ns w caps caps'.
Proof.
  induction ns as [|n ns IHns]; intros s caps s' caps'.
  - simpl. split.
    + intros [E|[]]. injection E as -> ->. exists []. split; auto. constructor.
    + intros (w & -> & Hl). inversion Hl; subst. now left.
  - rewrite m_seq_cons, in_flat_map. split.
    + intros ([s1 caps1] & H1 & H2).
      apply m_node_spec in H1 as (w1 & -> & L1).
      apply IHns in H2 as (w2 & -> & L2).
      exists (w1 ++ w2). rewrite <- app_assoc. split; auto.
      econstructor; eauto.
    + intros (w & -> & Hl). inversion Hl; subst.
      exists (w2 ++ s', caps1). split.
      * apply m_node_spec. exists w1. rewrite <- app_assoc. auto.
      * apply IHns. eauto.
Qed.

Lemma lang_seq_app ns1 ns2 w caps caps'' :
  lang_seq ic (ns1 ++ ns2) w caps caps'' <->
  exists w1 w2 caps',
    w = w1 ++ w2 /\ lang_seq ic ns1 w1 caps caps' /\
    lang_seq ic ns2 w2 caps' caps''.
Proof.
  revert w caps. induction ns1 as [|n ns1 IH]; intros w caps; simpl.
  - split.
    + intros Hl. exists [], w, caps. repeat split; auto. constructor.
    + intros (w1 & w2 & caps' & -> & H1 & H2). inversion H1; subst. exact H2.
  - split.
    + intros Hl. inversion Hl as [|n' ns' w1 w2 c0 c1 c2 Hn Hs]; subst.
      apply IH in Hs as (u1 & u2 & caps' & -> & L1 & L2).
      exists (w1 ++ u1), u2, caps'. rewrite app_assoc.
      repeat split; auto. econstructor; eauto.
    + intros (w1 & w2 & caps' & -> & H1 & H2). inversion H1; subst.
      rewrite <- app_assoc. econstructor; eauto.
      apply IH. eauto 6.
Qed.

Lemma lang_seq_single a q ns w caps caps' :
  lang_seq ic (Single a q :: ns) w caps caps' <->
  exists w1 w2, w = w1 ++ w2 /\ quant_lang ic a q w1 /\
                lang_seq ic ns w2 caps caps'.
Proof.
  split.
  - intros Hl. inversion Hl as [|n' ns' w1 w2 c0 c1 c2 Hn Hs]; subst.
    inversion Hn; subst. eauto.
  - intros (w1 & w2 & -> & Hq & Hl). econstructor; eauto. now constructor.
Qed.

Lemma lang_seq_group idx body ns w caps caps'' :
  lang_seq ic (Group idx body :: ns) w caps caps'' <->
  exists w1 w2 caps',
    w = w1 ++ w2 /\ lang_seq ic body w1 caps caps' /\
    lang_seq ic ns w2 ((idx, w1) :: caps') caps''.
Proof.
  split.
  - intros Hl. inversion Hl as [|n' ns' w1 w2 c0 c1 c2 Hn Hs]; subst.
    inversion Hn; subst. eauto 6.
  - intros (w1 & w2 & caps' & -> & Hb & Hl).
    econstructor; eauto. now constructor.
Qed.

Lemma lang_seq_nil w caps caps' :
  lang_seq ic [] w caps caps' <-> w = [] /\ caps' = caps.
Proof.
  split.
  - intros Hl. inversion Hl; subst. auto.
  - intros [-> ->]. constructor.
Qed.

(** A code unit of the pattern matches one code unit, the same up to
    canonicalization. *)
Lemma lang_seq_char c ns w caps caps' :
  lang_seq ic (Single (AChar c) One :: ns) w caps caps' <->
  exists ch w2, w = ch :: w2 /\ Canonicalize ic ch = Canonicalize ic c /\
                lang_seq ic ns w2 caps caps'.
Proof.
  rewrite lang_seq_single. simpl. split.
  - intros (w1 & w2 & -> & (ch & -> & Hc) & Hl).
    apply N.eqb_eq in Hc. exists ch, w2. auto.
  - intros (ch & w2 & -> & Hc & Hl). exists [ch], w2.
    repeat split; auto. exists ch. split; auto. apply N.eqb_eq. auto.
Qed.

(** Terms without groups leave the captures as they are. *)
Lemma lang_singles_caps ns w caps caps' :
  Shape.only_singles ns = true -> lang_seq ic ns w caps caps' -> caps' = caps.
Proof.
  revert w caps. induction ns as [|n ns IH]; intros w caps Hs Hl.
  - apply lang_seq_nil in Hl. tauto.
  - simpl in Hs. destruct n as [a q|]; [|discriminate].
    apply lang_seq_single in Hl as (w1 & w2 & -> & _ & Hl). eauto.
Qed.

(** The one group of a pattern, around a repetition and between terms
    without groups, captures the text of the repetition. *)
Lemma lang_group_star A idx a g B w caps caps' :
  Shape.only_singles A = true -> Shape.only_singles B = true ->
  lang_seq ic (A ++ Group idx [Single a (Star g)] :: B) w caps caps' ->
  exists w1 v w2,
    w = w1 ++ v ++ w2 /\ caps' = (idx, v) :: caps /\
    forallb (atom_matches ic a) v = true /\
    lang_seq ic A w1 caps caps /\
    lang_seq ic B w2 ((idx, v) :: caps) ((idx, v) :: caps).
Proof.
  intros HA HB Hl.
  apply lang_seq_app in Hl as (w1 & w' & caps1 & -> & L1 & L2).
  apply lang_seq_group in L2 as (v & w2 & caps2 & -> & Lb & L2).
  apply lang_seq_single in Lb as (v1 & v2 & -> & Hv & Lb).
  apply lang_seq_nil in Lb as [-> ->]. rewrite app_nil_r in *.
  pose proof (lang_singles_caps _ _ _ _ HA L1) as ->.
  pose proof (lang_singles_caps _ _ _ _ HB L2) as ->.
  exists w1, v1, w2. repeat split; auto.
Qed.

(** A text of the language of a pattern that starts with a pattern
    character is not empty. *)
Lemma lang_char_nonempty c ns w caps caps' :
  lang_seq ic (Single (AChar c) One :: ns) w caps caps' -> w <> [].
Proof.
  intros Hl. apply lang_seq_char in Hl as (ch & w2 & -> & _). discriminate.
Qed.

(** Pattern characters match a text of the same length, the same up
    to canonicalization. *)
Lemma lang_seq_lits cs ns w caps caps' :
  lang_seq ic (Shape.lits cs ++ ns) w caps caps' <->
  exists k w2,
    w = k ++ w2 /\ map (Canonicalize ic) k = map (Canonicalize ic) cs /\
    lang_seq ic ns w2 caps caps'.
Proof.
  revert w. induction cs as [|c cs IH]; intros w; simpl.
  - split.
    + intros Hl. exists [], w. auto.
    + intros (k & w2 & -> & Hk & Hl). destruct k; [exact Hl | discriminate].
  - unfold Shape.lit at 1. rewrite lang_seq_char. split.
    + intros (ch & w2 & -> & Hc & Hl). apply IH in Hl as (k & w3 & -> & Hk & Hl).
      exists (ch :: k), w3. simpl. rewrite Hc, Hk. auto.
    + intros (k & w2 & -> & Hk & Hl). destruct k as [|ch k]; [discriminate|].
      simpl in Hk. injection Hk as Hc Hk.
      exists ch, (k ++ w2). repeat split; auto. apply IH. eauto.
Qed.

End MatcherFacts.

Section ExecFacts.
Context {U : UnicodeData}.

Lemma match_here_Some r s rest caps :
  match_here r s = Some (rest, caps) ->
  exists w, s = w ++ rest /\ lang_seq (ignoreCase r) (nodes r) w [] caps.
Proof.
  unfold match_here. intros Hh.
  apply (m_seq_spec (ignoreCase r) (nodes r) s [] rest caps).
  destruct (m_seq (ignoreCase r) (nodes r) (s, [])); simpl in Hh;
    [discriminate|]. injection Hh as ->. simpl. auto.
Qed.

Lemma match_here_None r s :
  match_here r s = None <->
  forall w rest caps,
    s = w ++ rest -> ~ lang_seq (ignoreCase r) (nodes r) w [] caps.
Proof.
  unfold match_here. split.
  - intros Hh w rest caps -> Hl.
    assert (Hin : In (rest, caps)
                     (m_seq (ignoreCase r) (nodes r) (w ++ rest, [])))
      by (apply m_seq_spec; eauto).
    destruct (m_seq (ignoreCase r) (nodes r) (w ++ rest, []));
      [destruct Hin | simpl in Hh; discriminate].
  - intros Hno.
    destruct (m_seq (ignoreCase r) (nodes r) (s, [])) as [|[rest caps] l] eqn:E;
      [reflexivity|].
    assert (Hin : In (rest, caps) (m_seq (ignoreCase r) (nodes r) (s, [])))
      by (rewrite E; simpl; auto).
    apply m_seq_spec in Hin as (w & -> & Hl). destruct (Hno _ _ _ eq_refl Hl).
Qed.

(** A text of the language at the head of the input makes the pattern
    match there. *)
Lemma match_here_complete r w rest caps :
  lang_seq (ignoreCase r) (nodes r) w [] caps ->
  exists x, match_here r (w ++ rest) = Some x.
Proof.
  intros Hl. destruct (match_here r (w ++ rest)) eqn:E; eauto.
  exfalso. eapply match_here_None; eauto.
Qed.

(** [search] returns the leftmost match. *)
Lemma search_Some r s i m :
  search r s i = Some m ->
  exists pre,
    s = pre ++ matched m ++ after m /\
    index m = i + length pre /\
    match_here r (matched m ++ after m) = Some (after m, captures m) /\
    (forall p1 p2, pre = p1 ++ p2 -> p2 <> [] ->
                   match_here r (p2 ++ matched m ++ after m) = None).
Proof.
  revert i. induction s as [|c s IH]; intros i; simpl.
  - destruct (match_here r []) as [[rest caps]|] eqn:E; [|discriminate].
    intros Hm. injection Hm as <-. simpl.
    apply match_here_Some in E as E'. destruct E' as (w & Ew & _).
    symmetry in Ew. apply app_eq_nil in Ew as [-> ->].
    exists []. simpl. repeat split; auto.
    intros p1 p2 Ep. symmetry in Ep. apply app_eq_nil in Ep as [_ ->]. congruence.
  - destruct (match_here r (c :: s)) as [[rest caps]|] eqn:E.
    + intros Hm. injection Hm as <-. simpl.
      apply match_here_Some in E as E'. destruct E' as (w & Ew & _).
      rewrite Ew, consumed_app. exists []. simpl. rewrite <- Ew.
      repeat split; auto.
      intros p1 p2 Ep. symmetry in Ep. apply app_eq_nil in Ep as [_ ->]. congruence.
    + intros Hm. apply IH in Hm as (pre & -> & Hi & Hh & Hleft).
      exists (c :: pre). simpl. repeat split; auto; [lia|].
      intros p1 p2 Ep Hne. destruct p1 as [|c' p1]; simpl in Ep.
      * subst p2. exact E.
      * injection Ep as <- ->. apply Hleft with p1; auto.
Qed.

Lemma search_None r s i :
  search r s i = None <->
  forall pre suf, s = pre ++ suf -> match_here r suf = None.
Proof.
  revert i. induction s as [|c s IH]; intros i; simpl.
  - destruct (match_here r []) as [[rest caps]|] eqn:E.
    + split; [discriminate|]. intros Hno.
      rewrite (Hno [] []) in E; [discriminate | reflexivity].
    + split; auto. intros _ pre suf Ep. symmetry in Ep.
      apply app_eq_nil in Ep as [_ ->]. exact E.
  - destruct (match_here r (c :: s)) as [[rest caps]|] eqn:E.
    + split; [discriminate|]. intros Hno.
      rewrite (Hno [] (c :: s)) in E; [discriminate | reflexivity].
    + rewrite IH. split.
      * intros Hno pre suf Ep. destruct pre as [|c' pre]; simpl in Ep.
        -- subst suf. exact E.
        -- injection Ep as <- ->. eauto.
      * intros Hno pre suf ->. apply (Hno (c :: pre)). reflexivity.
Qed.

Lemma search_after_length r s i m :
  search r s i = Some m ->
  length (after m) + length (matched m) <= length s.
Proof.
  intros Hm. apply search_Some in Hm as (pre & -> & _).
  rewrite !length_app. lia.
Qed.

(** [replace] ends: its fuel is enough for every input. *)
Lemma replace_loop_total r replacement :
  forall fuel s, length s < fuel ->
                 exists out, replace_loop fuel r replacement s = Some out.
Proof.
  induction fuel as [|fuel IH]; intros s Hs; [lia|]. simpl.
  destruct (search r s 0) as [m|] eqn:Hm; [|eauto].
  apply search_after_length in Hm.
  destruct (matched m) as [|x w] eqn:Ew; simpl in Hm.
  - destruct (after m) as [|c rest] eqn:Ea; [eauto|]. simpl in Hm.
    destruct (IH rest) as (out & ->); [lia | eauto].
  - destruct (IH (after m)) as (out & ->); [lia | eauto].
Qed.

Lemma String_replace_total s r replacement :
  exists out, String_replace s r replacement = Some out.
Proof. apply replace_loop_total. lia. Qed.

(** [split] ends as well. *)
Lemma split_loop_total r :
  forall fuel cur s,
    2 * length s + (if length cur =? 0 then 0 else 1) < fuel ->
    exists parts, split_loop fuel r cur s = Some parts.
Proof.
  induction fuel as [|fuel IH]; intros cur s Hs; [lia|]. simpl.
  destruct s as [|c s']; [eauto|].
  assert (Hskip : exists parts, split_loop fuel r (cur ++ [c]) s' = Some parts).
  { apply IH. rewrite length_app. simpl in *.
    destruct (length cur + 1 =? 0); destruct (length cur =? 0); lia. }
  destruct (match_here r (c :: s')) as [[rest caps]|] eqn:Hh; [|exact Hskip].
  destruct ((length rest =? length (c :: s')) && (length cur =? 0)) eqn:Hc;
    [exact Hskip|].
  apply match_here_Some in Hh as (w & Ew & _).
  apply (f_equal (@length _)) in Ew. rewrite length_app in Ew.
  assert (Hlt : 2 * length rest + 0 < fuel).
  { apply andb_false_iff in Hc as [Hc|Hc]; simpl length in *.
    - apply Nat.eqb_neq in Hc. destruct (length cur =? 0); lia.
    - rewrite Hc in Hs. lia. }
  destruct (IH [] rest Hlt) as (parts & ->). eauto.
Qed.

Lemma String_split_total s r : exists parts, String_split s r = Some parts.
Proof.
  unfold String_split. destruct s as [|c s].
  - destruct (match_here r []); eauto.
  - apply split_loop_total. simpl. lia.
Qed.

End ExecFacts.

End RegExpFacts.

(* ================================================================== *)
(** * Facts about the program's patterns *)
(* ================================================================== *)

Module PatternFacts.
Import RegExp RegExpFacts Server Shape.

Ltac split_cmp :=
  repeat match goal with
    | |- context [N.ltb ?a ?b] => destruct (N.ltb_spec a b)
    | |- context [N.leb ?a ?b] => destruct (N.leb_spec a b)
    end; simpl;
  repeat match goal with
    | |- context [N.eqb ?a ?b] => destruct (N.eqb_spec a b)
    end; simpl; try reflexivity; try lia.

(** ** Compilation *)

Lemma not_syntax_character c :
  isSyntaxCharacter c = false ->
  (c =? 92)%N = false /\ (c =? 91)%N = false /\ (c =? 40)%N = false /\
  (c =? 41)%N = false /\ (c =? 42)%N = false /\ (c =? 43)%N = false /\
  (c =? 63)%N = false /\ (c =? 46)%N = false /\ (c =? 123)%N = false /\
  (c =? 93)%N = false /\ (c =? 125)%N = false.
Proof.
  unfold isSyntaxCharacter. simpl. intros Hc.
  repeat (apply orb_false_iff in Hc as [? Hc]). repeat split; assumption.
Qed.

(** Pattern characters are parsed into one term each. *)
Lemma parse_pattern_characters key :
  pattern_characters key ->
  forall p stack cur n,
    parse (key ++ p) MNormal stack cur n =
    parse p MNormal stack (rev (lits key) ++ cur) n.
Proof.
  unfold pattern_characters.
  induction key as [|c key IH]; intros Hk p stack cur n; [reflexivity|].
  simpl in Hk. apply andb_true_iff in Hk as [Hc Hk].
  apply negb_true_iff in Hc.
  destruct (not_syntax_character c Hc)
    as (E1 & E2 & E3 & E4 & E5 & E6 & E7 & E8 & E9 & E10 & E11).
  simpl. rewrite E1, E2, E3, E4, E5, E6, E7, E8, E9, E10, E11, Hc. simpl.
  rewrite IH by assumption. rewrite <- app_assoc. reflexivity.
Qed.

Lemma create_tag tagName :
  pattern_characters tagName ->
  exists source,
    template [Raw "<"; Subst tagName; Raw "[^>]*>([\s\S]*?)<\\/";
              Subst tagName; Raw ">"] = Some source /\
    create source "i" =
    Some {| nodes := tag_nodes tagName; ignoreCase := true; global := false |}.
Proof.
  intros Hk. eexists. split; [reflexivity|].
  unfold create.
  change (parse _ MNormal [] [] 0)
    with (parse (tagName ++ js "[^>]*>([sS]*?)<\/" ++ tagName ++ js ">")
                MNormal [] [lit 60%N] 0).
  rewrite parse_pattern_characters by assumption.
  change (parse _ MNormal [] _ 0)
    with (parse (tagName ++ js ">") MNormal []
                ([lit 47%N; lit 60%N; Group 1 [Single s_or_S (Star false)];
                  lit 62%N; Single not_gt (Star true)]
                   ++ rev (lits tagName) ++ [lit 60%N]) 1).
  rewrite parse_pattern_characters by assumption.
  simpl parse. unfold tag_nodes.
  repeat (rewrite ?rev_app_distr, ?rev_involutive; simpl).
  rewrite <- ?app_assoc. reflexivity.
Qed.

Lemma create_meta (attr : string) key :
  pattern_characters key ->
  pattern_characters (js attr) ->
  create (js "<meta[^>]*" ++ js attr ++ js "=[" ++ js DQUOTE ++ js "']" ++ key
          ++ js "[" ++ js DQUOTE ++ js "'][^>]*content=[" ++ js DQUOTE
          ++ js "']([^" ++ js DQUOTE ++ js "']*)[" ++ js DQUOTE
          ++ js "'][^>]*>") "i" =
  Some {| nodes := meta_nodes attr key; ignoreCase := true; global := false |}.
Proof.
  intros Hk Ha. unfold create.
  change (parse _ MNormal [] [] 0)
    with (parse (js attr ++ js "=[" ++ js DQUOTE ++ js "']" ++ key
                 ++ js "[" ++ js DQUOTE ++ js "'][^>]*content=[" ++ js DQUOTE
                 ++ js "']([^" ++ js DQUOTE ++ js "']*)[" ++ js DQUOTE
                 ++ js "'][^>]*>")
                MNormal [] (Single not_gt (Star true) :: rev (lits (js "<meta"))) 0).
  rewrite parse_pattern_characters by assumption.
  change (parse _ MNormal [] ?cur 0)
    with (parse (key ++ js "[" ++ js DQUOTE ++ js "'][^>]*content=[" ++ js DQUOTE
                 ++ js "']([^" ++ js DQUOTE ++ js "']*)[" ++ js DQUOTE
                 ++ js "'][^>]*>")
                MNormal [] (Single quote One :: lit 61%N :: cur) 0).
  rewrite parse_pattern_characters by assumption.
  simpl parse. unfold meta_nodes, lits.
  repeat (rewrite ?rev_app_distr, ?rev_involutive, ?map_app; simpl).
  rewrite <- ?app_assoc. reflexivity.
Qed.

(** The fragment beyond the program's own patterns: a class with a
    range, braced quantifiers, and the brackets and braces that are
    pattern characters where they close nothing. *)
Lemma create_ranges_and_braces :
  create (js "[a-z]+") EmptyString
  = Some {| nodes := [Single (AClass false [IRange 97 122]) (Plus true)];
            ignoreCase := false; global := false |} /\
  create (js "[^a-c-]{2,3}?x{2,}]}") "g"
  = Some {| nodes := [Single (AClass true [IRange 97 99; IChar 45])
                             (Rep 2 (Some 3%N) false);
                      Single (AChar 120) (Rep 2 None true);
                      Single (AChar 93) One; Single (AChar 125) One];
            ignoreCase := false; global := true |} /\
  create (js "a{,2}") EmptyString
  = Some {| nodes := map (fun c => Single (AChar c) One) (js "a{,2}");
            ignoreCase := false; global := false |} /\
  create (js "a{3,2}") EmptyString = None /\
  create (js "a*{2}") EmptyString = None /\
  create (js "[z-a]") EmptyString = None.
Proof. repeat split; reflexivity. Qed.

(** ** Canonicalization and the classes *)

Section Classes.
Context {U : UnicodeData}.

(** A code unit of ASCII that is no letter is matched by itself
    only. *)
Lemma canon_eqb_other c ch :
  (c < 65 \/ 90 < c < 97 \/ 122 < c < 128)%N ->
  (Canonicalize true c =? Canonicalize true ch)%N = (c =? ch)%N.
Proof.
  intros Hc. unfold Canonicalize. split_cmp.
Qed.

(** A letter of ASCII is matched by its two cases. *)
Lemma canon_eqb_letter c ch :
  (65 <= c <= 90)%N ->
  (Canonicalize true c =? Canonicalize true ch)%N
  = ((ch =? c) || (ch =? c + 32))%N.
Proof.
  intros Hc. unfold Canonicalize. split_cmp.
Qed.

Lemma canon_eqb_lower c ch :
  (97 <= c <= 122)%N ->
  (Canonicalize true c =? Canonicalize true ch)%N
  = ((ch =? c) || (ch =? c - 32))%N.
Proof.
  intros Hc. unfold Canonicalize. split_cmp.
Qed.

Ltac unfold_atom :=
  unfold not_gt, quote, not_quote, s_or_S;
  cbn [atom_matches item_matches existsb].

Lemma not_gt_matches ic ch :
  atom_matches ic not_gt ch = negb (ch =? 62)%N.
Proof.
  unfold_atom. rewrite orb_false_r. destruct ic.
  - rewrite canon_eqb_other by lia. rewrite N.eqb_sym. reflexivity.
  - simpl. rewrite N.eqb_sym. reflexivity.
Qed.

Lemma quote_matches ch : atom_matches true quote ch = is_quote ch.
Proof.
  unfold_atom. rewrite orb_false_r, !canon_eqb_other by lia.
  unfold is_quote. rewrite (N.eqb_sym 34), (N.eqb_sym 39). reflexivity.
Qed.

Lemma not_quote_matches ch :
  atom_matches true not_quote ch = negb (is_quote ch).
Proof.
  unfold_atom. rewrite orb_false_r, !canon_eqb_other by lia.
  unfold is_quote. rewrite (N.eqb_sym 34), (N.eqb_sym 39). reflexivity.
Qed.

Lemma s_or_S_matches ch :
  atom_matches true s_or_S ch = ((ch =? 115) || (ch =? 83))%N.
Proof.
  unfold_atom. rewrite orb_false_r, canon_eqb_lower, canon_eqb_letter by lia.
  simpl. destruct (ch =? 115)%N, (ch =? 83)%N; reflexivity.
Qed.

Lemma forallb_ext_eq {A} (f g : A -> bool) l :
  (forall x, f x = g x) -> forallb f l = forallb g l.
Proof. intros E. induction l; simpl; [reflexivity|]. now rewrite E, IHl. Qed.

Lemma same_ci_refl s : same_ci s s.
Proof. reflexivity. Qed.

Lemma same_ci_length a b : same_ci a b -> length a = length b.
Proof.
  unfold same_ci. intros E. apply (f_equal (@length _)) in E.
  now rewrite !length_map in E.
Qed.

End Classes.

(** ** The functions through their compiled patterns *)

Section Unfold.
Context {U : UnicodeData}.

Lemma getTagContent_unfold html tagName :
  pattern_characters tagName ->
  getTagContent html tagName =
  match search (tag_regex tagName) html 0 with
  | Some m => match capture m 1 with
              | Some inner => Some (trim inner)
              | None => None
              end
  | None => Some []
  end.
Proof.
  intros Hk. unfold getTagContent.
  destruct (create_tag tagName Hk) as (source & -> & ->). reflexivity.
Qed.

Lemma getMetaContent_unfold html key :
  pattern_characters key ->
  getMetaContent html key =
  match search (meta_regex "name" key) html 0 with
  | Some m => capture m 1
  | None =>
      match search (meta_regex "property" key) html 0 with
      | Some m => capture m 1
      | None => Some []
      end
  end.
Proof.
  intros Hk. unfold getMetaContent.
  change (template [Raw ("<meta[^>]*name=[" ++ DQUOTE ++ "']"); Subst key; _])
    with (Some (js "<meta[^>]*" ++ js "name" ++ js "=[" ++ js DQUOTE ++ js "']"
                ++ key ++ js "[" ++ js DQUOTE ++ js "'][^>]*content=["
                ++ js DQUOTE ++ js "']([^" ++ js DQUOTE ++ js "']*)["
                ++ js DQUOTE ++ js "'][^>]*>")).
  change (template [Raw ("<meta[^>]*property=[" ++ DQUOTE ++ "']"); Subst key; _])
    with (Some (js "<meta[^>]*" ++ js "property" ++ js "=[" ++ js DQUOTE
                ++ js "']" ++ key ++ js "[" ++ js DQUOTE
                ++ js "'][^>]*content=[" ++ js DQUOTE ++ js "']([^"
                ++ js DQUOTE ++ js "']*)[" ++ js DQUOTE ++ js "'][^>]*>")).
  cbv beta iota.
  rewrite !create_meta by (assumption || reflexivity). reflexivity.
Qed.

Lemma countWordsInPTags_unfold html :
  countWordsInPTags html =
  countWords_loop (S (length html)) p_regex tags_regex spaces_regex html 0 0.
Proof. reflexivity. Qed.

End Unfold.

(** ** Captures, totality and the loop of [countWordsInPTags] *)

Section Results.
Context {U : UnicodeData}.

Lemma only_singles_lits cs : only_singles (lits cs) = true.
Proof. induction cs; simpl; auto. Qed.

Lemma only_singles_app a b :
  only_singles (a ++ b) = only_singles a && only_singles b.
Proof. apply forallb_app. Qed.

(** What a match of a pattern with one group around a repetition
    captures. *)
Lemma search_capture r A idx a g B html i m :
  nodes r = A ++ Group idx [Single a (Star g)] :: B ->
  only_singles A = true -> only_singles B = true ->
  search r html i = Some m ->
  exists v, captures m = [(idx, v)] /\ capture m idx = Some v /\
            forallb (atom_matches (ignoreCase r) a) v = true.
Proof.
  intros Hn HA HB Hm.
  apply search_Some in Hm as (pre & _ & _ & Hh & _).
  apply match_here_Some in Hh as (w & _ & Hl).
  rewrite Hn in Hl.
  apply lang_group_star in Hl as (w1 & v & w2 & _ & Hc & Hv & _); auto.
  exists v. unfold capture. rewrite Hc. simpl. rewrite Nat.eqb_refl. auto.
Qed.

Lemma trimStart_id v :
  forallb (fun c => negb (isWhiteSpace c)) v = true -> trimStart v = v.
Proof.
  destruct v as [|c v]; simpl; [reflexivity|].
  intros Hv. apply andb_true_iff in Hv as [Hc _].
  apply negb_true_iff in Hc. now rewrite Hc.
Qed.

Lemma trim_id v :
  forallb (fun c => negb (isWhiteSpace c)) v = true -> trim v = v.
Proof.
  intros Hv. unfold trim, trimEnd. rewrite (trimStart_id v Hv).
  rewrite trimStart_id, rev_involutive; [reflexivity|].
  apply forallb_forall. intros x Hx. apply in_rev in Hx.
  rewrite forallb_forall in Hv. auto.
Qed.

Lemma tag_nodes_split tagName :
  tag_nodes tagName =
  (lit 60%N :: lits tagName ++ [Single not_gt (Star true); lit 62%N])
    ++ Group 1 [Single s_or_S (Star false)]
    :: ([lit 60%N; lit 47%N] ++ lits tagName ++ [lit 62%N]).
Proof. unfold tag_nodes. simpl. rewrite <- app_assoc. reflexivity. Qed.

(** Whatever the document, [getTagContent] returns a text made of the
    letter s in its two cases: the class of the pattern's group is
    [[sS]]. *)
Lemma getTagContent_result html tagName :
  pattern_characters tagName ->
  exists t, getTagContent html tagName = Some t /\
            Forall (fun c => c = 115%N \/ c = 83%N) t.
Proof.
  intros Hk. rewrite getTagContent_unfold by assumption.
  destruct (search (tag_regex tagName) html 0) as [m|] eqn:Hm.
  - eapply search_capture in Hm as (v & _ & -> & Hv).
    2: { apply tag_nodes_split. }
    2: { simpl. rewrite only_singles_app, only_singles_lits. reflexivity. }
    2: { simpl. rewrite only_singles_app, only_singles_lits. reflexivity. }
    simpl in Hv. rewrite (forallb_ext_eq _ _ _ s_or_S_matches) in Hv.
    assert (Hs : Forall (fun c => c = 115%N \/ c = 83%N) v).
    { apply Forall_forall. intros c Hc. rewrite forallb_forall in Hv.
      apply Hv in Hc. apply orb_true_iff in Hc as [Hc|Hc];
        apply N.eqb_eq in Hc; auto. }
    exists v. split; auto. f_equal. apply trim_id.
    apply forallb_forall. intros c Hc. rewrite Forall_forall in Hs.
    destruct (Hs c Hc) as [->| ->]; reflexivity.
  - exists []. auto.
Qed.

Lemma meta_nodes_split attr key :
  meta_nodes attr key =
  (lits (js "<meta") ++ [Single not_gt (Star true)] ++
   lits (js attr ++ js "=") ++ [Single quote One] ++ lits key ++
   [Single quote One; Single not_gt (Star true)] ++ lits (js "content=") ++
   [Single quote One])
    ++ Group 1 [Single not_quote (Star true)]
    :: [Single quote One; Single not_gt (Star true); lit 62%N].
Proof.
  unfold meta_nodes. rewrite <- !app_assoc. reflexivity.
Qed.

(** [getMetaContent] returns a text for every document, and the text
    holds no quote. *)
Lemma getMetaContent_result html key :
  pattern_characters key ->
  exists v, getMetaContent html key = Some v /\ no_quote v.
Proof.
  intros Hk. rewrite getMetaContent_unfold by assumption.
  assert (Hs : forall attr,
             only_singles
               (lits (js "<meta") ++ [Single not_gt (Star true)] ++
                lits (js attr ++ js "=") ++ [Single quote One] ++ lits key ++
                [Single quote One; Single not_gt (Star true)] ++
                lits (js "content=") ++ [Single quote One]) = true).
  { intros attr.
    rewrite !only_singles_app, !only_singles_lits. reflexivity. }
  assert (Hcap : forall attr m,
             search (meta_regex attr key) html 0 = Some m ->
             exists v, capture m 1 = Some v /\ no_quote v).
  { intros attr m Hm.
    eapply search_capture in Hm as (v & _ & -> & Hv);
      [| apply meta_nodes_split | apply Hs | reflexivity].
    simpl in Hv. rewrite (forallb_ext_eq _ _ _ not_quote_matches) in Hv.
    eauto. }
  destruct (search (meta_regex "name" key) html 0) as [m|] eqn:Hm; [eauto|].
  destruct (search (meta_regex "property" key) html 0) as [m|] eqn:Hm'; [eauto|].
  exists []. split; reflexivity.
Qed.

Lemma p_nodes_split :
  nodes p_regex =
  [lit 60%N; lit 112%N; Single not_gt (Star true); lit 62%N]
    ++ Group 1 [Single ADot (Star false)]
    :: [lit 60%N; Single (AChar 47%N) (Opt true); lit 112%N; lit 62%N].
Proof. reflexivity. Qed.

(** A paragraph span is not empty and lies in the document; its group
    captures a text without line terminator. *)
Lemma p_search html i m :
  search p_regex html i = Some m ->
  matched m <> [] /\
  (exists pre, html = pre ++ matched m ++ after m /\ index m = i + length pre
               /\ match_here p_regex (matched m ++ after m) <> None) /\
  exists inner, capture m 1 = Some inner /\ no_line_terminator inner.
Proof.
  intros Hm. pose proof Hm as Hc.
  eapply search_capture in Hc as (v & _ & Hc & Hv);
    [| apply p_nodes_split | reflexivity | reflexivity].
  apply search_Some in Hm as (pre & E & Hi & Hh & _).
  repeat split.
  - apply match_here_Some in Hh as (w & Ew & Hl).
    apply app_inv_tail in Ew. subst w.
    eapply lang_char_nonempty. exact Hl.
  - exists pre. repeat split; auto. congruence.
  - exists v. auto.
Qed.

Lemma exec_p html lastIndex :
  lastIndex <= length html ->
  exec p_regex html lastIndex =
  match search p_regex (skipn lastIndex html) lastIndex with
  | Some m => (Some m, index m + length (matched m))
  | None => (None, 0)
  end.
Proof.
  intros Hle. unfold exec. simpl.
  destruct (Nat.ltb_spec (length html) lastIndex); [lia | reflexivity].
Qed.

(** A span found from [lastIndex] on ends after [lastIndex] and inside
    the document. *)
Lemma p_search_progress html lastIndex m :
  lastIndex <= length html ->
  search p_regex (skipn lastIndex html) lastIndex = Some m ->
  lastIndex < index m + length (matched m) <= length html /\
  html = firstn (index m) html ++ matched m ++ after m.
Proof.
  intros Hle Hm. apply p_search in Hm as (Hne & (pre & E & Hi & _) & _).
  assert (HF : length (firstn lastIndex html) = lastIndex)
    by (rewrite length_firstn; lia).
  assert (Eh : html = (firstn lastIndex html ++ pre) ++ matched m ++ after m).
  { rewrite <- app_assoc, <- E. symmetry. apply firstn_skipn. }
  remember (firstn lastIndex html) as F eqn:EF.
  assert (Hlen : length html
                 = lastIndex + length pre + length (matched m) + length (after m)).
  { rewrite Eh at 1. rewrite !length_app. lia. }
  assert (0 < length (matched m))
    by (destruct (matched m); simpl; [congruence | lia]).
  split; [lia|].
  assert (Ef : firstn (index m) html = F ++ pre).
  { rewrite Eh. replace (index m) with (length (F ++ pre) + 0)
      by (rewrite length_app; lia).
    rewrite firstn_app_2. simpl. apply app_nil_r. }
  rewrite Ef. exact Eh.
Qed.

(** The loop of [countWordsInPTags] ends before its fuel does, with the
    words of the spans it has found. *)
Lemma countWords_loop_spec html :
  forall fuel lastIndex wordCount,
    lastIndex <= length html -> length html < fuel + lastIndex ->
    countWords_loop fuel p_regex tags_regex spaces_regex html lastIndex wordCount
    = Some (wordCount +
            list_sum (map words_in (exec_all fuel p_regex html lastIndex))).
Proof.
  induction fuel as [|fuel IH]; intros li wc Hle Hfuel; [lia|].
  simpl. rewrite exec_p by assumption.
  destruct (search p_regex (skipn li html) li) as [m|] eqn:Hm.
  - destruct (p_search_progress html li m Hle Hm) as [Hp _].
    destruct (p_search _ _ _ Hm) as (_ & _ & inner & Hc & _).
    destruct (String_replace_total inner tags_regex (js " ")) as (text & Et).
    destruct (String_split_total (trim text) spaces_regex) as (parts & Ep).
    assert (Ew : words_in m = length (filter truthy parts))
      by (unfold words_in; rewrite Hc, Et, Ep; reflexivity).
    rewrite Hc, Et, Ep, IH by lia.
    cbn [map list_sum fold_right]. rewrite Ew. unfold list_sum. f_equal. lia.
  - simpl. f_equal. lia.
Qed.

Lemma countWordsInPTags_spans html :
  countWordsInPTags html = Some (list_sum (map words_in (paragraph_spans html))).
Proof.
  rewrite countWordsInPTags_unfold, countWords_loop_spec by lia. reflexivity.
Qed.

(** Every span of the loop is a match of the pattern at its index. *)
Lemma exec_all_In html m :
  forall fuel lastIndex,
    lastIndex <= length html ->
    In m (exec_all fuel p_regex html lastIndex) ->
    html = firstn (index m) html ++ matched m ++ after m /\
    index m <= length html /\
    match_here p_regex (skipn (index m) html) <> None /\
    exists inner, capture m 1 = Some inner /\ no_line_terminator inner.
Proof.
  induction fuel as [|fuel IH]; intros li Hle Hin; [destruct Hin|].
  simpl in Hin. rewrite exec_p in Hin by assumption.
  destruct (search p_regex (skipn li html) li) as [m'|] eqn:Hm; [|destruct Hin].
  destruct (p_search_progress html li m' Hle Hm) as [Hp Eh].
  destruct Hin as [<-|Hin].
  - destruct (p_search _ _ _ Hm) as (_ & (pre & _ & _ & Hh) & Hc).
    repeat split; auto; [lia|].
    rewrite Eh at 1. rewrite skipn_app, skipn_all2 by (rewrite length_firstn; lia).
    rewrite length_firstn, Nat.min_l, Nat.sub_diag by lia. exact Hh.
  - apply IH in Hin; [exact Hin | lia].
Qed.

End Results.

(** ** Paragraph spans and line terminators *)

Section Paragraphs.
Context {U : UnicodeData}.

(** What a code unit of ASCII in a pattern matches. *)
Lemma canon_ascii_inv c ch :
  (c < 128)%N -> Canonicalize true ch = Canonicalize true c ->
  ch = c \/ ((97 <= c <= 122)%N /\ (ch + 32 = c)%N) \/
  ((65 <= c <= 90)%N /\ ch = (c + 32)%N).
Proof.
  intros Hc. unfold Canonicalize.
  repeat match goal with
    | |- context [N.ltb ?a ?b] => destruct (N.ltb_spec a b)
    | |- context [N.leb ?a ?b] => destruct (N.leb_spec a b)
    end; simpl; lia.
Qed.

Lemma app_same_length {A} (a b x y : list A) :
  length a = length b -> a ++ x = b ++ y -> a = b /\ x = y.
Proof.
  revert b. induction a as [|c a IH]; intros [|d b] El E; simpl in *;
    try discriminate; auto.
  injection E as -> E. injection El as El.
  destruct (IH b El E) as [-> ->]. auto.
Qed.

(** The text before the first [>] is determined. *)
Lemma split_at_gt a b x y :
  no_gt a -> no_gt b -> a ++ 62%N :: x = b ++ 62%N :: y -> a = b /\ x = y.
Proof.
  unfold no_gt. revert b. induction a as [|c a IH]; intros [|d b] Ha Hb E;
    simpl in *.
  - injection E as ->. auto.
  - injection E as <- _. discriminate.
  - injection E as -> _. discriminate.
  - injection E as -> E. apply andb_true_iff in Ha as [_ Ha].
    apply andb_true_iff in Hb as [_ Hb].
    destruct (IH b Ha Hb E) as [-> ->]. auto.
Qed.

(** A text without code unit of a kind that starts a text with one
    ends before it. *)
Lemma prefix_before (f : N -> bool) x r1 t c r2 :
  forallb (fun c => negb (f c)) x = true -> f c = true ->
  x ++ r1 = t ++ c :: r2 -> exists t2, t = x ++ t2.
Proof.
  intros Hx Hc. revert t.
  induction x as [|d x IH]; intros t E; simpl in *.
  - eauto.
  - apply andb_true_iff in Hx as [Hd Hx]. destruct t as [|e t]; simpl in E.
    + injection E as -> _. rewrite Hc in Hd. discriminate.
    + injection E as -> E. destruct (IH Hx t E) as (t2 & ->). eauto.
Qed.



(** The texts the paragraph pattern matches. *)
Lemma p_lang w caps :
  lang_seq true (nodes p_regex) w [] caps ->
  exists o a v T,
    w = o ++ a ++ 62%N :: v ++ T /\ same_ci o (js "<p") /\ no_gt a /\
    no_line_terminator v /\ no_line_terminator T /\ T <> [] /\
    starts_ci (js "</p>") T || starts_ci (js "<p>") T = true.
Proof.
  intros Hl. simpl in Hl. unfold lit in Hl.
  apply lang_seq_char in Hl as (c1 & w1 & -> & H1 & Hl).
  apply lang_seq_char in Hl as (c2 & w2 & -> & H2 & Hl).
  apply lang_seq_single in Hl as (a & w3 & -> & Ha & Hl).
  apply lang_seq_char in Hl as (c3 & w4 & -> & H3 & Hl).
  apply lang_seq_group in Hl as (v0 & w5 & caps' & -> & Hv & Hl).
  apply lang_seq_single in Hv as (v & e & -> & Hv & He).
  apply lang_seq_nil in He as [-> ->]. rewrite app_nil_r.
  apply lang_seq_char in Hl as (c4 & w6 & -> & H4 & Hl).
  apply lang_seq_single in Hl as (sl & w7 & -> & Hs & Hl).
  apply lang_seq_char in Hl as (c5 & w8 & -> & H5 & Hl).
  apply lang_seq_char in Hl as (c6 & w9 & -> & H6 & Hl).
  apply lang_seq_nil in Hl as [-> _].
  cbn [quant_lang atom_matches] in Ha, Hv, Hs.
  rewrite (forallb_ext_eq _ _ _ (not_gt_matches true)) in Ha.
  assert (E3 : c3 = 62%N).
  { apply N.eqb_eq. rewrite N.eqb_sym, <- canon_eqb_other by lia.
    apply N.eqb_eq. auto. }
  assert (E4 : c4 = 60%N).
  { apply N.eqb_eq. rewrite N.eqb_sym, <- canon_eqb_other by lia.
    apply N.eqb_eq. auto. }
  assert (E6 : c6 = 62%N).
  { apply N.eqb_eq. rewrite N.eqb_sym, <- canon_eqb_other by lia.
    apply N.eqb_eq. auto. }
  assert (E5 : c5 = 112%N \/ c5 = 80%N).
  { apply canon_ascii_inv in H5; lia. }
  subst c3 c4 c6.
  exists [c1; c2], a, v, (60%N :: sl ++ [c5; 62%N]).
  repeat split; auto.
  - unfold same_ci. change (js "<p") with [60%N; 112%N]. cbn [map].
    rewrite H1, H2. reflexivity.
  - destruct Hs as [->|(c & -> & Hc)].
    + destruct E5 as [-> | ->]; reflexivity.
    + apply N.eqb_eq in Hc. symmetry in Hc.
      apply canon_ascii_inv in Hc; [|lia].
      assert (c = 47%N) as -> by lia.
      destruct E5 as [-> | ->]; reflexivity.
  - discriminate.
  - change (js "</p>") with [60%N; 47%N; 112%N; 62%N].
    change (js "<p>") with [60%N; 112%N; 62%N].
    destruct Hs as [->|(c & -> & Hc)]; cbn [starts_ci app].
    + rewrite H5, !N.eqb_refl. cbn [andb]. apply orb_true_r.
    + apply N.eqb_eq in Hc. rewrite <- Hc, H5, !N.eqb_refl. reflexivity.
Qed.


End Paragraphs.

(** ** The texts of the meta patterns *)

Section Meta.
Context {U : UnicodeData}.

Lemma lang_seq_one a ns w caps caps' :
  lang_seq true (Single a One :: ns) w caps caps' <->
  exists ch w2, w = ch :: w2 /\ atom_matches true a ch = true /\
                lang_seq true ns w2 caps caps'.
Proof.
  rewrite lang_seq_single. cbn [quant_lang]. split.
  - intros (w1 & w2 & -> & (ch & -> & Hc) & Hl). exists ch, w2. auto.
  - intros (ch & w2 & -> & Hc & Hl). exists [ch], w2. eauto 6.
Qed.

Lemma lang_seq_star a g ns w caps caps' :
  lang_seq true (Single a (Star g) :: ns) w caps caps' <->
  exists w1 w2, w = w1 ++ w2 /\ forallb (atom_matches true a) w1 = true /\
                lang_seq true ns w2 caps caps'.
Proof. rewrite lang_seq_single. reflexivity. Qed.

Lemma no_gt_matches a :
  forallb (atom_matches true not_gt) a = true <-> no_gt a.
Proof.
  unfold no_gt. now rewrite (forallb_ext_eq _ _ _ (not_gt_matches true)).
Qed.

Lemma no_quote_matches v :
  forallb (atom_matches true not_quote) v = true <-> no_quote v.
Proof.
  unfold no_quote. now rewrite (forallb_ext_eq _ _ _ not_quote_matches).
Qed.

(** The language of a meta pattern is the set of meta tag texts. *)
Lemma meta_lang_sound attr key w caps rest :
  lang_seq true (meta_nodes attr key) w [] caps ->
  exists v, caps = [(1, v)] /\ meta_text attr key (w ++ rest) v rest.
Proof.
  unfold meta_nodes. intros Hl.
  apply lang_seq_lits in Hl as (m & w1 & -> & Hm & Hl). cbn [app] in Hl.
  apply lang_seq_star in Hl as (a & w2 & -> & Ha & Hl).
  apply lang_seq_lits in Hl as (n & w3 & -> & Hn & Hl). cbn [app] in Hl.
  apply lang_seq_one in Hl as (q1 & w4 & -> & Hq1 & Hl).
  apply lang_seq_lits in Hl as (k & w5 & -> & Hk & Hl). cbn [app] in Hl.
  apply lang_seq_one in Hl as (q2 & w6 & -> & Hq2 & Hl).
  apply lang_seq_star in Hl as (b & w7 & -> & Hb & Hl).
  apply lang_seq_lits in Hl as (c & w8 & -> & Hc & Hl). cbn [app] in Hl.
  apply lang_seq_one in Hl as (q3 & w9 & -> & Hq3 & Hl).
  apply lang_seq_group in Hl as (v0 & w10 & caps' & -> & Hv & Hl).
  apply lang_seq_star in Hv as (v & e & -> & Hv & He).
  apply lang_seq_nil in He as [-> ->]. rewrite app_nil_r in *.
  apply lang_seq_one in Hl as (q4 & w11 & -> & Hq4 & Hl).
  apply lang_seq_star in Hl as (d & w12 & -> & Hd & Hl).
  unfold lit in Hl.
  apply lang_seq_char in Hl as (g & w13 & -> & Hg & Hl).
  apply lang_seq_nil in Hl as [-> ->].
  assert (g = 62%N) as ->.
  { apply N.eqb_eq. rewrite N.eqb_sym, <- canon_eqb_other by lia.
    apply N.eqb_eq. auto. }
  rewrite quote_matches in Hq1, Hq2, Hq3, Hq4.
  apply no_gt_matches in Ha, Hb, Hd. apply no_quote_matches in Hv.
  exists v. split; [reflexivity|].
  exists m, a, n, q1, k, q2, b, c, q3, q4, d.
  repeat split; auto.
  repeat (rewrite <- ?app_assoc; cbn [app]). reflexivity.
Qed.

Lemma meta_lang_complete attr key s v rest :
  meta_text attr key s v rest ->
  exists w, s = w ++ rest /\
            lang_seq true (meta_nodes attr key) w [] [(1, v)].
Proof.
  intros (m & a & n & q1 & k & q2 & b & c & q3 & q4 & d & -> & Hm & Ha & Hn
          & Hq1 & Hk & Hq2 & Hb & Hc & Hq3 & Hv & Hq4 & Hd).
  exists (m ++ a ++ n ++ q1 :: k ++ q2 :: b ++ c ++ q3 :: v ++ q4 :: d ++ [62%N]).
  split; [repeat (rewrite <- ?app_assoc; cbn [app]); reflexivity|].
  rewrite <- quote_matches in Hq1, Hq2, Hq3, Hq4.
  apply no_gt_matches in Ha, Hb, Hd. apply no_quote_matches in Hv.
  unfold meta_nodes.
  apply lang_seq_lits. exists m. eexists. split; [reflexivity|]. split; [exact Hm|].
  cbn [app]. apply lang_seq_star. exists a. eexists. split; [reflexivity|].
  split; [exact Ha|].
  apply lang_seq_lits. exists n. eexists. split; [reflexivity|]. split; [exact Hn|].
  cbn [app]. apply lang_seq_one. exists q1. eexists. split; [reflexivity|].
  split; [exact Hq1|].
  apply lang_seq_lits. exists k. eexists. split; [reflexivity|]. split; [exact Hk|].
  cbn [app]. apply lang_seq_one. exists q2. eexists. split; [reflexivity|].
  split; [exact Hq2|].
  apply lang_seq_star. exists b. eexists. split; [reflexivity|]. split; [exact Hb|].
  apply lang_seq_lits. exists c. eexists. split; [reflexivity|]. split; [exact Hc|].
  cbn [app]. apply lang_seq_one. exists q3. eexists. split; [reflexivity|].
  split; [exact Hq3|].
  apply lang_seq_group. exists v. eexists. exists []. split; [reflexivity|]. split.
  { apply lang_seq_star. exists v, []. rewrite app_nil_r.
    repeat split; auto. constructor. }
  apply lang_seq_one. exists q4. eexists. split; [reflexivity|]. split; [exact Hq4|].
  apply lang_seq_star. exists d, [62%N]. split; [reflexivity|]. split; [exact Hd|].
  unfold lit. apply lang_seq_char. exists 62%N, []. repeat split. constructor.
Qed.

(** A match of a meta pattern is the leftmost meta tag text of the
    document, and the pattern matches whenever there is one. *)
Lemma search_meta_Some attr key html m :
  search (meta_regex attr key) html 0 = Some m ->
  exists v, capture m 1 = Some v /\ leftmost_meta_text attr key html v.
Proof.
  intros Hm. apply search_Some in Hm as (pre & E & _ & Hh & Hleft).
  apply match_here_Some in Hh as (w & Ew & Hl).
  apply (meta_lang_sound _ _ _ _ (after m)) in Hl as (v & Hc & Ht).
  exists v. split.
  - unfold capture. rewrite Hc. reflexivity.
  - exists pre, (matched m ++ after m), (after m). rewrite Ew.
    repeat split; auto; [congruence|].
    intros p1 p2 v' rest' Ep Hne Ht'.
    apply meta_lang_complete in Ht' as (w' & Ew' & Hl').
    specialize (Hleft p1 p2 Ep Hne). rewrite Ew, Ew' in Hleft.
    eapply match_here_None in Hleft; eauto.
Qed.

Lemma search_meta_None attr key html :
  search (meta_regex attr key) html 0 = None ->
  ~ has_meta_text attr key html.
Proof.
  intros Hm (pre & s & v & rest & E & Ht).
  apply meta_lang_complete in Ht as (w & -> & Hl).
  rewrite search_None in Hm. specialize (Hm pre _ E).
  eapply match_here_None in Hm; eauto.
Qed.

Lemma leftmost_has_meta_text attr key html v :
  leftmost_meta_text attr key html v -> has_meta_text attr key html.
Proof. intros (pre & s & rest & E & Ht & _). exists pre, s, v, rest. auto. Qed.

(** ** Counting quotes *)

Lemma count_quotes_app a b :
  count_quotes (a ++ b) = count_quotes a + count_quotes b.
Proof. unfold count_quotes. now rewrite filter_app, length_app. Qed.

Lemma count_quotes_quote q s :
  is_quote q = true -> count_quotes (q :: s) = S (count_quotes s).
Proof. unfold count_quotes. simpl. now intros ->. Qed.

Lemma count_quotes_none s : no_quote s -> count_quotes s = 0.
Proof.
  unfold no_quote, count_quotes. induction s as [|c s IH]; simpl; auto.
  intros Hs. apply andb_true_iff in Hs as [Hc Hs].
  apply negb_true_iff in Hc. rewrite Hc. auto.
Qed.

(** Two splits of a text at quotes with the same number of quotes
    before them are the same split. *)
Lemma split_at_quote X A q q' R R' :
  count_quotes X = count_quotes A ->
  is_quote q = true -> is_quote q' = true ->
  X ++ q :: R = A ++ q' :: R' -> X = A /\ R = R'.
Proof.
  intros Hn Hq Hq'. revert A Hn.
  induction X as [|x X IH]; intros [|a A] Hn E; simpl in E.
  - injection E as _ ->. auto.
  - injection E as <- _. rewrite count_quotes_quote in Hn by assumption.
    discriminate.
  - injection E as -> _. rewrite count_quotes_quote in Hn by assumption.
    discriminate.
  - injection E as -> E.
    assert (Hn' : count_quotes X = count_quotes A).
    { unfold count_quotes in *. simpl in Hn.
      destruct (is_quote a); simpl in Hn; lia. }
    destruct (IH A Hn' E) as [-> ->]. auto.
Qed.

(** The text between the last two quotes of a tag is determined. *)
Lemma quoted_value_unique A X q q' v v' p p' Y Y' :
  no_quote v -> no_quote v' ->
  is_quote q = true -> is_quote q' = true ->
  is_quote p = true -> is_quote p' = true ->
  count_quotes Y = 0 -> count_quotes A <= count_quotes X ->
  A ++ q :: v ++ p :: Y = X ++ q' :: v' ++ p' :: Y' -> v = v'.
Proof.
  intros Hv Hv' Hq Hq' Hp Hp' HY Hle E.
  assert (Hn : count_quotes X = count_quotes A).
  { apply (f_equal count_quotes) in E.
    rewrite !count_quotes_app, !count_quotes_quote, !count_quotes_app,
      !count_quotes_quote, (count_quotes_none v), (count_quotes_none v'), HY
      in E by assumption.
    lia. }
  symmetry in E. apply split_at_quote in E as [_ E]; auto.
  apply split_at_quote in E as [E _]; auto.
  now rewrite (count_quotes_none v), (count_quotes_none v').
Qed.

End Meta.

End PatternFacts.

(* ================================================================== *)
(** * The properties of the specification *)
(* ================================================================== *)

Import RegExp RegExpFacts Server Shape PatternFacts.

Section Extraction.
Context {U : UnicodeData}.

(** The template value of the pattern of [getTagContent]: the
    backslashes before [s] and [S] are lost, the class of the group is
    [[sS]]. *)
Lemma template_of_getTagContent tagName :
  template [Raw "<"; Subst tagName; Raw "[^>]*>([\s\S]*?)<\\/";
            Subst tagName; Raw ">"]
  = Some (js "<" ++ tagName ++ js "[^>]*>([sS]*?)<\/" ++ tagName ++ js ">").
Proof. reflexivity. Qed.

(** C1 (the code breaks it): on the document [<title>Hello</title>]
    the tag content extractor and the title resolver return the empty
    string instead of [Hello]; for every document the text returned for
    the tag [title] is made of the letter s in its two cases only. *)
Theorem getTagContent_title_Hello :
  getTagContent (js "<title>Hello</title>") (js "title") = Some [] /\
  getDocumentTitle (js "<title>Hello</title>") = Some [] /\
  forall html,
    exists t, getTagContent html (js "title") = Some t /\
              Forall (fun c => c = 115%N \/ c = 83%N) t.
Proof.
  split; [vm_compute; reflexivity|].
  split; [vm_compute; reflexivity|].
  intros html. apply getTagContent_result. reflexivity.
Qed.

(** C3 (the code breaks it): for a document without title tag whose
    [og:title] is [Y] the fallback chain of [getDocumentTitle] gives
    [Y], and the analysis gives the empty [metaTitle]: it reads the
    title tag only. *)
Theorem analysis_title_without_fallback :
  getDocumentTitle (js "<meta property='og:title' content='Y'>")
  = Some (js "Y") /\
  exists o,
    analysis (js "<meta property='og:title' content='Y'>") 200 = Some o /\
    get o "metaTitle" = Some (VStr []).
Proof.
  split; [vm_compute; reflexivity|].
  eexists. split; vm_compute; reflexivity.
Qed.

(** C6: the three test vectors of the paragraph word counter.  In the
    second one the nested tag does not end the span: the one span found
    is the whole paragraph, and its text is counted with a space in the
    place of each tag, [a  b  c].  That the tags are taken out of the
    text, and by a space, decides the count where they stand between
    letters: [a<b>b</b>c] holds three words, not one as it would with
    the tags left in or removed without a space. *)
Theorem countWordsInPTags_test_vectors :
  countWordsInPTags (js "<p>hello world</p>") = Some 2 /\
  countWordsInPTags (js "<p>a <b>b</b> c</p>") = Some 3 /\
  countWordsInPTags (js "no paragraphs here") = Some 0 /\
  map (fun m => (matched m, capture m 1))
      (paragraph_spans (js "<p>a <b>b</b> c</p>"))
  = [(js "<p>a <b>b</b> c</p>", Some (js "a <b>b</b> c"))] /\
  String_replace (js "a <b>b</b> c") tags_regex (js " ")
  = Some (js "a  b  c") /\
  countWordsInPTags (js "<p>a<b>b</b>c</p>") = Some 3.
Proof. repeat split; vm_compute; reflexivity. Qed.

(** The analysis of every document succeeds. *)
Lemma analysis_total html statusCode :
  exists title description wordCount,
    getTagContent html (js "title") = Some title /\
    getMetaContent html (js "description") = Some description /\
    countWordsInPTags html = Some wordCount /\
    analysis html statusCode =
    Some [ ("statusCode", VNum statusCode);
           ("metaTitle", VStr title);
           ("metaTitleLength", VNum (length title));
           ("metaDescription", VStr description);
           ("metaDescriptionLength", VNum (length description));
           ("wordCountInPTags", VNum wordCount) ]%string.
Proof.
  destruct (getTagContent_result html (js "title") eq_refl) as (t & Ht & _).
  destruct (getMetaContent_result html (js "description") eq_refl) as (d & Hd & _).
  exists t, d, (list_sum (map words_in (paragraph_spans html))).
  unfold analysis. rewrite Ht, Hd, countWordsInPTags_spans. auto.
Qed.

(** C7: for every document and status code the analysis is produced,
    and its two length fields are the lengths of its title and of its
    description, in code units of the strings, whatever code units the
    document holds. *)
Theorem analysis_lengths html statusCode :
  exists o title description,
    analysis html statusCode = Some o /\
    get o "metaTitle" = Some (VStr title) /\
    get o "metaTitleLength" = Some (VNum (length title)) /\
    get o "metaDescription" = Some (VStr description) /\
    get o "metaDescriptionLength" = Some (VNum (length description)).
Proof.
  destruct (analysis_total html statusCode) as (t & d & n & _ & _ & _ & ->).
  eexists. exists t, d. repeat split; reflexivity.
Qed.

End Extraction.

Section MetaContent.
Context {U : UnicodeData}.

(** C5 (the code breaks it): the extractor does not return the value
    of the content attribute.  In the first document the tag has the
    name [description] and the content [a], and the extractor returns
    [b], the value of the attribute [data-content]: the repetition
    before [content=] is greedy and reaches the last text [content=] of
    the tag.  In the second the content is [it's], written between
    double quotes, and the extractor returns [it]: the value ends at the
    first quote of either kind. *)
Theorem getMetaContent_not_the_content_attribute :
  getMetaContent
    (js "<meta name='description' content='a' data-content='b'>")
    (js "description")
  = Some (js "b") /\
  getMetaContent
    (js ("<meta name='description' content=" ++ DQUOTE ++ "it's" ++ DQUOTE
         ++ ">"))
    (js "description")
  = Some (js "it").
Proof. split; vm_compute; reflexivity. Qed.

End MetaContent.

Section Handler.
Context {U : UnicodeData}.

Lemma eqb_str_eq a b : eqb_str a b = true <-> a = b.
Proof.
  unfold eqb_str. destruct (list_eq_dec N.eq_dec a b); split;
    auto; discriminate.
Qed.

Lemma eqb_str_neq a b : a <> b -> eqb_str a b = false.
Proof.
  intros Hne. destruct (eqb_str a b) eqn:E; [|reflexivity].
  apply eqb_str_eq in E. contradiction.
Qed.

(** The run of [handleAnalysis], case by case. *)
Lemma handleAnalysis_cases P targetUrl respond :
  match URL_new P targetUrl None with
  | Throw e => handleAnalysis P targetUrl respond = tell (respond (error_of e))
  | Ok u =>
      if existsb (eqb_str (protocol u)) [js "http:"; js "https:"] then
        match fetch P targetUrl with
        | Throw e =>
            handleAnalysis P targetUrl respond
            = tell (EFetch targetUrl :: respond (error_of e))
        | Ok r =>
            match text r with
            | Throw e =>
                handleAnalysis P targetUrl respond
                = tell (EFetch targetUrl :: respond (error_of e))
            | Ok html =>
                exists o, analysis html (status r) = Some o /\
                          handleAnalysis P targetUrl respond
                          = tell (EFetch targetUrl :: respond o)
            end
        end
      else
        handleAnalysis P targetUrl respond
        = tell (respond [("error"%string, VStr invalid_protocol_message)])
  end.
Proof.
  unfold handleAnalysis.
  destruct (URL_new P targetUrl None) as [u|e];
    [|simpl; rewrite ?app_nil_r; reflexivity].
  destruct (existsb (eqb_str (protocol u)) [js "http:"; js "https:"]) eqn:Ep;
    simpl in Ep; simpl; rewrite Ep; simpl;
    [|rewrite ?app_nil_r; reflexivity].
  destruct (fetch P targetUrl) as [r|e]; simpl;
    [|rewrite ?app_nil_r; reflexivity].
  destruct (text r) as [html|e]; simpl; [|rewrite ?app_nil_r; reflexivity].
  destruct (analysis_total html (status r)) as (t & d & n & _ & _ & _ & Ea).
  eexists. split; [exact Ea|]. rewrite Ea. simpl.
  rewrite ?app_nil_r. reflexivity.
Qed.

(** C8: for a target URL whose scheme is neither http nor https the
    run of [handleAnalysis] is the one call of [respond] with the
    single-field error object, without any fetch; and every run
    responds once, with an error object of the one field [error] or
    with an analysis of the six fields, never with both. *)
Theorem handleAnalysis_invalid_protocol P targetUrl parsedUrl :
  URL_new P targetUrl None = Ok parsedUrl ->
  protocol parsedUrl <> js "http:" -> protocol parsedUrl <> js "https:" ->
  (forall respond,
      handleAnalysis P targetUrl respond
      = tell (respond [("error"%string, VStr invalid_protocol_message)])) /\
  events (handleAnalysis P targetUrl (fun data => [ERespond data]))
  = [ERespond [("error"%string, VStr invalid_protocol_message)]] /\
  (forall P' url',
      exists data,
        (events (handleAnalysis P' url' (fun data => [ERespond data]))
         = [ERespond data] \/
         events (handleAnalysis P' url' (fun data => [ERespond data]))
         = [EFetch url'; ERespond data]) /\
        (keys data = ["error"%string] \/
         keys data = ["statusCode"; "metaTitle"; "metaTitleLength";
                      "metaDescription"; "metaDescriptionLength";
                      "wordCountInPTags"]%string)).
Proof.
  intros Hurl Hhttp Hhttps.
  assert (Hall : forall respond,
             handleAnalysis P targetUrl respond
             = tell (respond [("error"%string, VStr invalid_protocol_message)])).
  { intros respond. pose proof (handleAnalysis_cases P targetUrl respond) as Hc.
    rewrite Hurl in Hc. simpl in Hc.
    rewrite (eqb_str_neq _ _ Hhttp), (eqb_str_neq _ _ Hhttps) in Hc.
    exact Hc. }
  split; [exact Hall|]. split; [rewrite Hall; reflexivity|].
  intros P' url'.
  pose proof (handleAnalysis_cases P' url' (fun data => [ERespond data])) as Hc.
  destruct (URL_new P' url' None) as [u|e].
  - destruct (existsb (eqb_str (protocol u)) [js "http:"; js "https:"]).
    + destruct (fetch P' url') as [r|e].
      * destruct (text r) as [html|e].
        -- destruct Hc as (o & Ho & ->).
           destruct (analysis_total html (status r))
             as (t & d & n & _ & _ & _ & Ea).
           rewrite Ea in Ho. injection Ho as <-.
           eexists. split; [right; reflexivity | right; reflexivity].
        -- rewrite Hc. eexists. split; [right; reflexivity | left; reflexivity].
      * rewrite Hc. eexists. split; [right; reflexivity | left; reflexivity].
    + rewrite Hc. eexists. split; [left; reflexivity | left; reflexivity].
  - rewrite Hc. eexists. split; [left; reflexivity | left; reflexivity].
Qed.

(** C9 (as amended): for a request [GET /analyze] with a target URL,
    every failure of the analysis, an invalid URL, an invalid scheme, a
    failed fetch or a body that cannot be read, is sent as an error
    object with the status 200; a request without target URL, missing
    or empty, is answered with the status 400. *)
Theorem server_analyze_status P req parsed :
  URL_new P (url req) (Some (js "http://" ++ host req)) = Ok parsed ->
  method req = js "GET" -> pathname parsed = js "/analyze" ->
  match searchParams_get parsed (js "url") with
  | Some (c :: t) =>
      let target := c :: t in
      (forall e, URL_new P target None = Throw e ->
                 events (server P req)
                 = [EWriteHead 200 json_type; EEnd (BJson (error_of e))]) /\
      (forall u, URL_new P target None = Ok u ->
                 protocol u <> js "http:" -> protocol u <> js "https:" ->
                 events (server P req)
                 = [EWriteHead 200 json_type;
                    EEnd (BJson [("error"%string,
                                  VStr invalid_protocol_message)])]) /\
      (forall u e, URL_new P target None = Ok u ->
                   protocol u = js "http:" \/ protocol u = js "https:" ->
                   fetch P target = Throw e ->
                   events (server P req)
                   = [EFetch target; EWriteHead 200 json_type;
                      EEnd (BJson (error_of e))]) /\
      (forall u r e, URL_new P target None = Ok u ->
                     protocol u = js "http:" \/ protocol u = js "https:" ->
                     fetch P target = Ok r -> text r = Throw e ->
                     events (server P req)
                     = [EFetch target; EWriteHead 200 json_type;
                        EEnd (BJson (error_of e))])
  | _ =>
      events (server P req)
      = [EWriteHead 400 json_type;
         EEnd (BJson [("error"%string, VStr (js "Missing url parameter."))])]
  end.
Proof.
  intros Hurl Hget Hpath. unfold server. rewrite Hurl.
  cbv beta iota delta [lift bind]. rewrite Hget, Hpath.
  change (eqb_str (js "GET") (js "GET") && eqb_str (js "/analyze") (js "/analyze"))
    with true. cbv iota.
  destruct (searchParams_get parsed (js "url")) as [[|c t]|];
    [reflexivity | | reflexivity].
  cbv zeta.
  match goal with
  | |- context [let '(es', r) := ?h in ([] ++ es', r)] =>
      replace (let '(es', r) := h in ([] ++ es', r)) with h
        by (destruct h; reflexivity)
  end.
  pose proof (handleAnalysis_cases P (c :: t)
                (fun data => [EWriteHead 200 json_type; EEnd (BJson data)]))
    as Hc.
  assert (Hok : forall u, protocol u = js "http:" \/ protocol u = js "https:" ->
                          existsb (eqb_str (protocol u))
                                  [js "http:"; js "https:"] = true).
  { intros u [-> | ->]; reflexivity. }
  repeat split.
  - intros e He. rewrite He in Hc. rewrite Hc. reflexivity.
  - intros u Hu H1 H2. rewrite Hu in Hc. simpl in Hc.
    rewrite (eqb_str_neq _ _ H1), (eqb_str_neq _ _ H2) in Hc.
    rewrite Hc. reflexivity.
  - intros u e Hu Hp Hf. rewrite Hu, (Hok u Hp), Hf in Hc.
    rewrite Hc. reflexivity.
  - intros u r e Hu Hp Hf Ht. rewrite Hu, (Hok u Hp), Hf, Ht in Hc.
    rewrite Hc. reflexivity.
Qed.

(** C2 (the code breaks it): on a platform whose global object has no
    property [html] the evaluation of the module throws a
    ReferenceError at the first of the two statements, before the server
    is created: there is no listening server and no export. *)
Theorem module_top_level_throws P :
  global_object P "html" = None ->
  module_top_level P = ([], Throw (ReferenceError "html")).
Proof.
  intros Hg. unfold module_top_level, global_reference. rewrite Hg. reflexivity.
Qed.

End Handler.

Lemma handleAnalysis_invalid_protocol_witness :
  URL_new Demo.offline (js "ftp://example.com/file") None
  = Ok {| protocol := js "ftp:"; pathname := js "/"; searchParams := [] |} /\
  events (handleAnalysis (U := ascii_case_table) Demo.offline
            (js "ftp://example.com/file") (fun data => [ERespond data]))
  = [ERespond [("error"%string, VStr invalid_protocol_message)]].
Proof.
  split; [reflexivity|].
  apply (handleAnalysis_invalid_protocol (U := ascii_case_table) Demo.offline
           (js "ftp://example.com/file")
           {| protocol := js "ftp:"; pathname := js "/"; searchParams := [] |});
    [reflexivity | discriminate | discriminate].
Defined.

(** C9 (as stated, refuted): the request [GET /analyze] without target
    URL fails, and its error object is sent with the status 400. *)
Lemma server_missing_url_counterexample :
  events (server (U := ascii_case_table) Demo.offline
            {| method := js "GET"; url := js "/analyze";
               host := js "localhost:3000" |})
  = [EWriteHead 400 json_type;
     EEnd (BJson [("error"%string, VStr (js "Missing url parameter."))])].
Proof. reflexivity. Qed.

Lemma server_analyze_status_witness :
  events (server (U := ascii_case_table) Demo.offline
            {| method := js "GET"; url := js "/analyze?url=ftp://example.com/";
               host := js "localhost:3000" |})
  = [EWriteHead 200 json_type;
     EEnd (BJson [("error"%string, VStr invalid_protocol_message)])].
Proof.
  refine (proj1 (proj2
    (server_analyze_status (U := ascii_case_table) Demo.offline
       {| method := js "GET"; url := js "/analyze?url=ftp://example.com/";
          host := js "localhost:3000" |}
       {| protocol := js "http:"; pathname := js "/analyze";
          searchParams := [(js "url", js "ftp://example.com/")] |}
       eq_refl eq_refl eq_refl))
    {| protocol := js "ftp:"; pathname := js "/"; searchParams := [] |}
    eq_refl _ _); discriminate.
Defined.

Lemma module_top_level_throws_witness :
  global_object Demo.offline "html" = None /\
  module_top_level (U := ascii_case_table) Demo.offline
  = ([], Throw (ReferenceError "html")).
Proof.
  split; [reflexivity|].
  apply (module_top_level_throws (U := ascii_case_table) Demo.offline).
  reflexivity.
Defined.

(** The lengths of C7 count code units: a character outside the basic
    plane, here U+1F600 as its two surrogates, counts for two. *)
Lemma analysis_length_in_code_units :
  exists o,
    analysis (U := ascii_case_table)
      (js "<meta name='description' content='" ++ [55357%N; 56832%N] ++ js "'>")
      200 = Some o /\
    get o "metaDescription" = Some (VStr [55357%N; 56832%N]) /\
    get o "metaDescriptionLength" = Some (VNum 2).
Proof. eexists. repeat split; vm_compute; reflexivity. Qed.


(* ================================================================== *)
(** * Further properties of the request handler and of the server *)
(* ================================================================== *)

Section Requests.
Context {U : UnicodeData}.

(** X1: when the URL has the scheme http or https, the fetch succeeds
    and the body can be read, [handleAnalysis] fetches the target once
    and responds with the analysis of the body, whose [statusCode] is
    the status of the response whatever it is: the page of a 404 or of a
    500 is analysed like any other. *)
Theorem handleAnalysis_success P targetUrl u r html :
  URL_new P targetUrl None = Ok u ->
  protocol u = js "http:" \/ protocol u = js "https:" ->
  fetch P targetUrl = Ok r -> text r = Ok html ->
  exists o,
    analysis html (status r) = Some o /\
    get o "statusCode" = Some (VNum (status r)) /\
    forall respond,
      handleAnalysis P targetUrl respond
      = tell (EFetch targetUrl :: respond o).
Proof.
  intros Hu Hp Hf Ht.
  destruct (analysis_total html (status r)) as (t & d & n & _ & _ & _ & Ea).
  eexists. split; [exact Ea|]. split; [reflexivity|].
  intros respond.
  pose proof (handleAnalysis_cases P targetUrl respond) as Hc.
  rewrite Hu in Hc.
  assert (Hok : existsb (eqb_str (protocol u)) [js "http:"; js "https:"] = true)
    by (destruct Hp as [-> | ->]; reflexivity).
  rewrite Hok, Hf, Ht in Hc. destruct Hc as (o & Ho & ->).
  rewrite Ea in Ho. injection Ho as <-. reflexivity.
Qed.


Lemma events_nil_l {A} (h : M A) :
  (let '(es', r) := h in ([] ++ es', r)) = h.
Proof. destruct h; reflexivity. Qed.

(** The route of a request whose URL is parsed. *)
Lemma server_route P req parsed :
  URL_new P (url req) (Some (js "http://" ++ host req)) = Ok parsed ->
  server P req =
  if eqb_str (method req) (js "GET") && eqb_str (pathname parsed) (js "/analyze")
  then
    match searchParams_get parsed (js "url") with
    | Some (c :: target) =>
        handleAnalysis P (c :: target)
          (fun data => [EWriteHead 200 json_type; EEnd (BJson data)])
    | _ =>
        tell [EWriteHead 400 json_type;
              EEnd (BJson [("error"%string, VStr (js "Missing url parameter."))])]
    end
  else
    match fs_readFile P
            (if eqb_str (pathname parsed) (js "/") || eqb_str (pathname parsed) []
             then path_join P (publicDir P) (js "index.html")
             else path_join P (publicDir P)
                            (strip_leading_slashes (pathname parsed))) with
    | Throw _ =>
        tell [EWriteHead 404 (js "text/plain"); EEnd (BText (js "Not found"))]
    | Ok content =>
        tell [EWriteHead 200
                (mimeType
                   (toLowerCase_ascii
                      (path_extname P
                         (if eqb_str (pathname parsed) (js "/")
                             || eqb_str (pathname parsed) []
                          then path_join P (publicDir P) (js "index.html")
                          else path_join P (publicDir P)
                                 (strip_leading_slashes (pathname parsed))))));
              EEnd (BText content)]
    end.
Proof.
  intros Hurl. unfold server. rewrite Hurl.
  cbv beta iota delta [lift bind]. exact (events_nil_l _).
Qed.

(** X3: a request whose URL is parsed is answered once, by one head
    and one body, with the status 200, 400 or 404, after at most one
    fetch; a request whose URL is not parsed is not answered at all, the
    exception leaves the callback. *)
Theorem server_answers_once P req :
  match URL_new P (url req) (Some (js "http://" ++ host req)) with
  | Ok parsed =>
      exists statusCode contentType body,
        (events (server P req) = [EWriteHead statusCode contentType; EEnd body] \/
         exists target,
           searchParams_get parsed (js "url") = Some target /\
           events (server P req)
           = [EFetch target; EWriteHead statusCode contentType; EEnd body]) /\
        (statusCode = 200 \/ statusCode = 400 \/ statusCode = 404)
  | Throw e => server P req = ([], Throw e)
  end.
Proof.
  destruct (URL_new P (url req) (Some (js "http://" ++ host req)))
    as [parsed|e] eqn:Hurl; [|unfold server; rewrite Hurl; reflexivity].
  rewrite (server_route P req parsed Hurl).
  destruct (eqb_str (method req) (js "GET")
            && eqb_str (pathname parsed) (js "/analyze")).
  - destruct (searchParams_get parsed (js "url")) as [[|c t]|].
    + do 3 eexists. split; [left; reflexivity | auto].
    + pose proof (handleAnalysis_cases P (c :: t)
                    (fun data => [EWriteHead 200 json_type; EEnd (BJson data)]))
        as Hc.
      destruct (URL_new P (c :: t) None) as [u|e].
      * destruct (existsb (eqb_str (protocol u)) [js "http:"; js "https:"]).
        -- destruct (fetch P (c :: t)) as [r|e].
           ++ destruct (text r) as [html|e].
              ** destruct Hc as (o & _ & ->). do 3 eexists.
                 split; [right; eexists; split; reflexivity | auto].
              ** rewrite Hc. do 3 eexists.
                 split; [right; eexists; split; reflexivity | auto].
           ++ rewrite Hc. do 3 eexists.
              split; [right; eexists; split; reflexivity | auto].
        -- rewrite Hc. do 3 eexists. split; [left; reflexivity | auto].
      * rewrite Hc. do 3 eexists. split; [left; reflexivity | auto].
    + do 3 eexists. split; [left; reflexivity | auto].
  - destruct (fs_readFile P _); do 3 eexists;
      (split; [left; reflexivity | auto]).
Qed.

Lemma strip_leading_slashes_head s rest :
  strip_leading_slashes s <> 47%N :: rest.
Proof.
  induction s as [|c s IH]; [discriminate|]. cbn [strip_leading_slashes].
  destruct (N.eq_dec c 47) as [->|Hc]; [exact IH|].
  assert (E : strip_leading_slashes (c :: s) = c :: s).
  { destruct c as [|p]; [reflexivity|].
    do 6 (destruct p as [p|p|]; try reflexivity). congruence. }
  cbn [strip_leading_slashes] in E. rewrite E. congruence.
Qed.

(** X4: a request that is not [GET /analyze], a [POST /analyze] for
    one, is served from the public directory and never fetches.  It
    reads one file: the index page for the paths [/] and the empty one,
    else the path, without its leading slashes, joined to the public
    directory; the name joined never starts with a slash.  When the file
    is read the answer is its content with the status 200 and the
    content type that [mimeTypes] has for its extension in lower case,
    [application/octet-stream] when it has none; when it is not, the
    answer is the text [Not found] with the status 404. *)
Theorem server_static_route P req parsed :
  URL_new P (url req) (Some (js "http://" ++ host req)) = Ok parsed ->
  method req <> js "GET" \/ pathname parsed <> js "/analyze" ->
  let relative :=
    if eqb_str (pathname parsed) (js "/") || eqb_str (pathname parsed) []
    then js "index.html"
    else strip_leading_slashes (pathname parsed) in
  let filePath := path_join P (publicDir P) relative in
  (forall rest, relative <> 47%N :: rest) /\
  server P req =
  tell match fs_readFile P filePath with
       | Ok content =>
           [EWriteHead 200
              (mimeType (toLowerCase_ascii (path_extname P filePath)));
            EEnd (BText content)]
       | Throw _ =>
           [EWriteHead 404 (js "text/plain"); EEnd (BText (js "Not found"))]
       end.
Proof.
  intros Hurl Hroute relative filePath. split.
  - intros rest. unfold relative.
    destruct (eqb_str (pathname parsed) (js "/")
              || eqb_str (pathname parsed) []);
      [discriminate | apply strip_leading_slashes_head].
  - rewrite (server_route P req parsed Hurl).
    assert (Hr : eqb_str (method req) (js "GET")
                 && eqb_str (pathname parsed) (js "/analyze") = false).
    { destruct Hroute as [Hm|Hp].
      - rewrite (eqb_str_neq _ _ Hm). reflexivity.
      - rewrite (eqb_str_neq _ _ Hp). apply andb_false_r. }
    rewrite Hr. unfold filePath, relative.
    destruct (eqb_str (pathname parsed) (js "/")
              || eqb_str (pathname parsed) []);
      destruct (fs_readFile P _); reflexivity.
Qed.

(** The title resolver returns a text for every document. *)
Lemma getDocumentTitle_total html :
  exists t, getDocumentTitle html = Some t.
Proof.
  unfold getDocumentTitle.
  destruct (getTagContent_result html (js "title") eq_refl) as (t & -> & _).
  destruct (truthy t); [eauto|].
  destruct (getMetaContent_result html (js "og:title") eq_refl) as (o & -> & _).
  destruct (truthy o); [eauto|].
  destruct (getMetaContent_result html (js "title") eq_refl) as (d & -> & _).
  eauto.
Qed.

(** X5: on a platform whose global object has a property [html]
    that is a string, the module is evaluated to its end and exports the
    server when the file is not the main module or [server.listen]
    accepts the port; it listens only as the main module, on the port of
    the environment or, when that is missing or empty, on 3000.  When
    [server.listen] throws, the evaluation throws that exception and
    nothing is exported; when [html] is no string, it throws the
    TypeError of the call [html.match] before the server is created. *)
Theorem module_top_level_loads P :
  let port := match env_PORT P with
              | Some (c :: p) => c :: p
              | _ => js "3000"
              end in
  match global_object P "html" with
  | Some (GString v) =>
      if require_main_is_module P then
        match server_listen P port with
        | Ok _ =>
            exists exports,
              exported_server exports = server P /\
              module_top_level P = ([EListen port], Ok exports)
        | Throw e => module_top_level P = ([], Throw e)
        end
      else
        exists exports,
          exported_server exports = server P /\
          module_top_level P = ([], Ok exports)
  | Some (GOther error) => module_top_level P = ([], Throw error)
  | None => module_top_level P = ([], Throw (ReferenceError "html"))
  end.
Proof.
  intros port. unfold module_top_level, global_reference.
  destruct (global_object P "html") as [[v|e]|]; [|reflexivity|reflexivity].
  cbv beta iota delta [ret bind match_receiver].
  destruct (getDocumentTitle_total v) as (t & ->).
  destruct (getMetaContent_result v (js "description") eq_refl) as (d & -> & _).
  fold port.
  destruct (require_main_is_module P).
  - destruct (server_listen P port) as [[]|e]; [|reflexivity].
    eexists. split; [|reflexivity]. reflexivity.
  - eexists. split; [|reflexivity]. reflexivity.
Qed.

End Requests.

Lemma handleAnalysis_success_witness :
  exists o,
    analysis (U := ascii_case_table)
      (js "<title>ss</title><p>page not found</p>") 404 = Some o /\
    get o "statusCode" = Some (VNum 404) /\
    forall respond,
      handleAnalysis (U := ascii_case_table) Demo.online
        (js "http://example.com/missing") respond
      = tell (EFetch (js "http://example.com/missing") :: respond o).
Proof.
  apply (handleAnalysis_success (U := ascii_case_table) Demo.online
           (js "http://example.com/missing")
           {| protocol := js "http:"; pathname := js "/"; searchParams := [] |}
           {| status := 404;
              text := Ok (js "<title>ss</title><p>page not found</p>") |}
           (js "<title>ss</title><p>page not found</p>"));
    [reflexivity | left; reflexivity | reflexivity | reflexivity].
Defined.

Lemma server_static_route_witness :
  (forall rest, js "index.html" <> 47%N :: rest) /\
  server (U := ascii_case_table) Demo.online
    {| method := js "POST"; url := js "/"; host := js "localhost" |}
  = tell [EWriteHead 200 (js "text/html; charset=utf-8");
          EEnd (BText (js "<html></html>"))].
Proof.
  apply (server_static_route (U := ascii_case_table) Demo.online
           {| method := js "POST"; url := js "/"; host := js "localhost" |}
           {| protocol := js "http:"; pathname := js "/"; searchParams := [] |});
    [reflexivity | left; discriminate].
Defined.

Lemma module_top_level_loads_witness :
  exists exports,
    exported_server exports = server (U := ascii_case_table) Demo.online /\
    module_top_level (U := ascii_case_table) Demo.online
    = ([EListen (js "8080")], Ok exports).
Proof.
  exact (module_top_level_loads (U := ascii_case_table) Demo.online).
Defined.


(* ================================================================== *)
(** * Further properties of the extraction functions *)
(* ================================================================== *)

Section Search.
Context {U : UnicodeData}.

(** A match found at the head of the input is the result of the
    search. *)
Lemma search_here r s i rest caps :
  match_here r s = Some (rest, caps) ->
  search r s i
  = Some {| index := i; matched := consumed s rest;
            captures := caps; after := rest |}.
Proof. intros Hh. destruct s; simpl; rewrite Hh; reflexivity. Qed.

(** The search moves over the positions where the pattern does not
    match. *)
Lemma search_skip r pre s i :
  (forall p1 p2, pre = p1 ++ p2 -> p2 <> [] -> match_here r (p2 ++ s) = None) ->
  search r (pre ++ s) i = search r s (i + length pre).
Proof.
  revert i. induction pre as [|c pre IH]; intros i Hno; simpl.
  - now rewrite Nat.add_0_r.
  - assert (H0 : match_here r ((c :: pre) ++ s) = None)
      by (apply (Hno [] (c :: pre)); [reflexivity | discriminate]).
    simpl in H0. rewrite H0, IH.
    + f_equal. lia.
    + intros p1 p2 -> Hne. apply (Hno (c :: p1)); auto.
Qed.

(** A pattern that starts with [<] matches at a [<] only. *)
Lemma match_here_not_lt r ns c s :
  nodes r = lit 60%N :: ns -> c <> 60%N -> match_here r (c :: s) = None.
Proof.
  intros Hn Hc. apply match_here_None. intros w rest caps E Hl.
  rewrite Hn in Hl. unfold lit in Hl.
  apply lang_seq_char in Hl as (ch & w2 & -> & Hch & _).
  simpl in E. injection E as -> _. apply Hc.
  destruct (ignoreCase r).
  - apply N.eqb_eq. rewrite N.eqb_sym, <- canon_eqb_other by lia.
    apply N.eqb_eq. auto.
  - exact Hch.
Qed.

Lemma no_lt_cons c s : no_lt (c :: s) -> c <> 60%N /\ no_lt s.
Proof.
  unfold no_lt. simpl. intros Hs. apply andb_true_iff in Hs as [Hc Hs].
  apply negb_true_iff, N.eqb_neq in Hc. auto.
Qed.

Lemma no_lt_app a b : no_lt (a ++ b) <-> no_lt a /\ no_lt b.
Proof. unfold no_lt. rewrite forallb_app. apply andb_true_iff. Qed.

(** After a text without [<] such a pattern is searched from the end
    of that text on. *)
Lemma search_after_text r ns pre s i :
  nodes r = lit 60%N :: ns -> no_lt pre ->
  search r (pre ++ s) i = search r s (i + length pre).
Proof.
  intros Hn Hpre. apply search_skip. intros p1 p2 -> Hne.
  apply no_lt_app in Hpre as [_ Hp2].
  destruct p2 as [|c p2]; [congruence|].
  apply no_lt_cons in Hp2 as [Hc _]. simpl.
  eapply match_here_not_lt; eauto.
Qed.

(** In a text without [<] it matches nowhere. *)
Lemma search_no_lt r ns s i :
  nodes r = lit 60%N :: ns -> no_lt s -> search r s i = None.
Proof.
  intros Hn Hs. rewrite <- (app_nil_r s).
  rewrite (search_after_text r ns s [] i Hn Hs). simpl.
  replace (match_here r []) with (@None (list N * list (nat * list N)));
    [reflexivity|].
  symmetry. apply match_here_None. intros w rest caps E Hl.
  rewrite Hn in Hl. unfold lit in Hl.
  apply lang_seq_char in Hl as (ch & w2 & -> & _). discriminate.
Qed.

(** The texts before two code units of a kind that hold none of that
    kind are the same. *)
Lemma split_at (f : N -> bool) a b c d x y :
  forallb (fun c => negb (f c)) a = true ->
  forallb (fun c => negb (f c)) b = true ->
  f c = true -> f d = true ->
  a ++ c :: x = b ++ d :: y -> a = b /\ x = y.
Proof.
  intros Ha Hb Hc Hd. revert b Hb.
  induction a as [|e a IH]; intros [|g b] Hb E; simpl in *.
  - injection E as _ ->. auto.
  - injection E as -> _. apply andb_true_iff in Hb as [Hg _].
    rewrite Hc in Hg. discriminate.
  - injection E as -> _. apply andb_true_iff in Ha as [He _].
    rewrite Hd in He. discriminate.
  - injection E as -> E. apply andb_true_iff in Ha as [_ Ha].
    apply andb_true_iff in Hb as [_ Hb].
    destruct (IH Ha b Hb E) as [-> ->]. auto.
Qed.

End Search.

Section TagFreeText.
Context {U : UnicodeData}.

(** X6: the analysis of a document without [<], the empty body
    among them, has the empty title, the empty description and no word,
    with the status it is given. *)
Theorem analysis_of_text html statusCode :
  no_lt html ->
  analysis html statusCode
  = Some [ ("statusCode", VNum statusCode);
           ("metaTitle", VStr []);
           ("metaTitleLength", VNum 0);
           ("metaDescription", VStr []);
           ("metaDescriptionLength", VNum 0);
           ("wordCountInPTags", VNum 0) ]%string.
Proof.
  intros Hs. unfold analysis.
  rewrite getTagContent_unfold by reflexivity.
  rewrite (search_no_lt (tag_regex (js "title")) _ html 0 eq_refl Hs).
  rewrite getMetaContent_unfold by reflexivity.
  rewrite (search_no_lt (meta_regex "name" (js "description")) _ html 0
             eq_refl Hs).
  rewrite (search_no_lt (meta_regex "property" (js "description")) _ html 0
             eq_refl Hs).
  rewrite countWordsInPTags_spans. unfold paragraph_spans. cbn [exec_all].
  rewrite exec_p by lia. cbn [skipn].
  rewrite (search_no_lt p_regex _ html 0 eq_refl Hs). reflexivity.
Qed.

End TagFreeText.

Lemma analysis_of_text_witness :
  analysis (U := ascii_case_table) (js "404 page not found") 404
  = Some [ ("statusCode", VNum 404);
           ("metaTitle", VStr []);
           ("metaTitleLength", VNum 0);
           ("metaDescription", VStr []);
           ("metaDescriptionLength", VNum 0);
           ("wordCountInPTags", VNum 0) ]%string.
Proof.
  apply (analysis_of_text (U := ascii_case_table) (js "404 page not found") 404).
  reflexivity.
Defined.

Section TagContent.
Context {U : UnicodeData}.

Lemma only_s_no_lt v : only_s v -> forallb (fun c => negb (c =? 60)%N) v = true.
Proof.
  unfold only_s. intros Hv. apply forallb_forall. intros c Hc.
  rewrite forallb_forall in Hv. apply Hv in Hc.
  apply orb_true_iff in Hc as [Hc|Hc]; apply N.eqb_eq in Hc; subst; reflexivity.
Qed.

Lemma only_s_no_space v :
  only_s v -> forallb (fun c => negb (isWhiteSpace c)) v = true.
Proof.
  unfold only_s. intros Hv. apply forallb_forall. intros c Hc.
  rewrite forallb_forall in Hv. apply Hv in Hc.
  apply orb_true_iff in Hc as [Hc|Hc]; apply N.eqb_eq in Hc; subst; reflexivity.
Qed.

(** The text of a tag whose content is made of the letter s is in the
    language of the tag pattern, and its capture is determined. *)
Lemma tag_lang_intro tagName tn attrs X tn' :
  same_ci tn tagName -> same_ci tn' tagName -> no_gt attrs -> only_s X ->
  lang_seq true (tag_nodes tagName)
           (60%N :: tn ++ attrs ++ 62%N :: X ++ 60%N :: 47%N :: tn' ++ [62%N])
           [] [(1, X)].
Proof.
  intros Htn Htn' Ha HX. unfold tag_nodes, lit.
  apply lang_seq_char. exists 60%N. eexists. split; [reflexivity|].
  split; [reflexivity|].
  apply lang_seq_lits. exists tn. eexists. split; [reflexivity|].
  split; [exact Htn|]. cbn [app].
  apply lang_seq_star. exists attrs. eexists. split; [reflexivity|].
  split; [apply no_gt_matches; exact Ha|].
  apply lang_seq_char. exists 62%N. eexists. split; [reflexivity|].
  split; [reflexivity|].
  apply lang_seq_group. exists X. eexists. exists []. split; [reflexivity|].
  split.
  { apply lang_seq_star. exists X, []. rewrite app_nil_r.
    repeat split; [|constructor].
    unfold only_s in HX.
    now rewrite (forallb_ext_eq _ _ _ s_or_S_matches). }
  apply lang_seq_char. exists 60%N. eexists. split; [reflexivity|].
  split; [reflexivity|].
  apply lang_seq_char. exists 47%N. eexists. split; [reflexivity|].
  split; [reflexivity|].
  apply lang_seq_lits. exists tn', [62%N]. split; [reflexivity|].
  split; [exact Htn'|].
  apply lang_seq_char. exists 62%N, []. repeat split. constructor.
Qed.

Lemma tag_lang_capture tagName tn attrs X tail w rest caps :
  same_ci tn tagName -> no_gt attrs -> only_s X ->
  lang_seq true (tag_nodes tagName) w [] caps ->
  w ++ rest = 60%N :: tn ++ attrs ++ 62%N :: X ++ 60%N :: tail ->
  caps = [(1, X)].
Proof.
  intros Htn Ha HX Hl E. unfold tag_nodes, lit in Hl.
  apply lang_seq_char in Hl as (c0 & w1 & -> & _ & Hl).
  apply lang_seq_lits in Hl as (k1 & w2 & -> & Hk1 & Hl). cbn [app] in Hl.
  apply lang_seq_star in Hl as (a & w3 & -> & Hat & Hl).
  apply lang_seq_char in Hl as (c1 & w4 & -> & Hc1 & Hl).
  apply lang_seq_group in Hl as (v0 & w5 & caps' & -> & Hv & Hl).
  apply lang_seq_star in Hv as (v & e & -> & Hv & He).
  apply lang_seq_nil in He as [-> ->]. rewrite app_nil_r in *.
  apply lang_seq_char in Hl as (c2 & w6 & -> & Hc2 & Hl).
  assert (Hcaps : caps = [(1, v)]).
  { eapply (lang_singles_caps true) in Hl; [exact Hl|].
    simpl. rewrite only_singles_app, only_singles_lits. reflexivity. }
  assert (c1 = 62%N) as ->.
  { apply N.eqb_eq. rewrite N.eqb_sym, <- canon_eqb_other by lia.
    apply N.eqb_eq. auto. }
  assert (c2 = 60%N) as ->.
  { apply N.eqb_eq. rewrite N.eqb_sym, <- canon_eqb_other by lia.
    apply N.eqb_eq. auto. }
  apply no_gt_matches in Hat.
  rewrite (forallb_ext_eq _ _ _ s_or_S_matches) in Hv.
  simpl in E. injection E as _ E.
  repeat (rewrite <- ?app_assoc in E; cbn [app] in E).
  apply app_same_length in E as [_ E].
  2: { apply same_ci_length in Htn. unfold same_ci in Htn.
       apply (f_equal (@length _)) in Hk1. rewrite !length_map in Hk1.
       congruence. }
  apply split_at_gt in E as [_ E]; auto.
  apply (split_at (fun c => (c =? 60)%N)) in E as [-> _];
    auto using only_s_no_lt.
Qed.

(** X7: what [getTagContent] does return.  For a tag name of pattern
    characters and a document that holds, after a text without [<], the
    tag in any letter case, with any attributes, around a content made of
    the letter s in its two cases, the result is that content, whatever
    follows the closing tag. *)
Theorem getTagContent_s_content tagName pre tn attrs X tn' post :
  pattern_characters tagName ->
  same_ci tn tagName -> same_ci tn' tagName ->
  no_lt pre -> no_gt attrs -> only_s X ->
  getTagContent
    (pre ++ 60%N :: tn ++ attrs ++ 62%N :: X ++ 60%N :: 47%N :: tn' ++ 62%N :: post)
    tagName
  = Some X.
Proof.
  intros Hk Htn Htn' Hpre Ha HX.
  rewrite getTagContent_unfold by assumption.
  rewrite (search_after_text (tag_regex tagName) _ pre _ 0 eq_refl Hpre).
  pose proof (tag_lang_intro tagName tn attrs X tn' Htn Htn' Ha HX) as Hl.
  destruct (match_here_complete (tag_regex tagName) _ post _ Hl)
    as ([rest caps] & Hh).
  repeat (rewrite <- ?app_assoc in Hh; cbn [app] in Hh).
  rewrite (search_here _ _ _ _ _ Hh).
  apply match_here_Some in Hh as (w & Ew & Hw).
  symmetry in Ew.
  apply (tag_lang_capture tagName tn attrs X _ w rest caps Htn Ha HX Hw) in Ew.
  subst caps. unfold capture. simpl.
  f_equal. apply trim_id, only_s_no_space. exact HX.
Qed.

End TagContent.

Lemma getTagContent_s_content_witness :
  getTagContent (U := ascii_case_table)
    (js "text " ++ 60%N :: js "TITLE" ++ js " lang='en'" ++ 62%N :: js "sSs"
        ++ 60%N :: 47%N :: js "Title" ++ 62%N :: js "<title>s</title>")
    (js "title")
  = Some (js "sSs").
Proof.
  apply (getTagContent_s_content (U := ascii_case_table) (js "title")
           (js "text ") (js "TITLE") (js " lang='en'") (js "sSs") (js "Title")
           (js "<title>s</title>")); reflexivity.
Defined.

Section SingleTag.
Context {U : UnicodeData}.

(** A code unit of ASCII that is no letter occurs in a text when it
    occurs in a text that is the same up to letter case. *)
Lemma same_ci_In x a b :
  (x < 65 \/ 90 < x < 97 \/ 122 < x < 128)%N ->
  same_ci a b -> In x a -> In x b.
Proof.
  intros Hx. unfold same_ci. revert b.
  induction a as [|c a IH]; intros [|d b] E Hin; simpl in *;
    try discriminate; try contradiction.
  injection E as Hc E. destruct Hin as [->|Hin]; [left|right; eauto].
  apply N.eqb_eq. rewrite N.eqb_sym, <- canon_eqb_other by exact Hx.
  apply N.eqb_eq. auto.
Qed.

Lemma same_ci_no_quote a b : same_ci a b -> no_quote b -> no_quote a.
Proof.
  unfold no_quote. intros E Hb. apply forallb_forall. intros x Hx.
  rewrite forallb_forall in Hb.
  destruct (is_quote x) eqn:Hq; [|reflexivity].
  unfold is_quote in Hq. apply orb_true_iff in Hq as [Hq|Hq];
    apply N.eqb_eq in Hq; subst x;
    apply (same_ci_In _ a b) in Hx; auto; try lia;
    apply Hb in Hx; discriminate.
Qed.

Lemma same_ci_no_lt a b : same_ci a b -> no_lt b -> no_lt a.
Proof.
  unfold no_lt. intros E Hb. apply forallb_forall. intros x Hx.
  rewrite forallb_forall in Hb.
  destruct (N.eqb_spec x 60); [|reflexivity]. subst x.
  apply (same_ci_In _ a b) in Hx; auto; try lia.
  apply Hb in Hx. discriminate.
Qed.

Lemma is_quote_not_lt q : is_quote q = true -> q <> 60%N.
Proof. intros Hq ->. discriminate. Qed.

Lemma app_same_length_tail {A} (x y n n' : list A) :
  length n = length n' -> x ++ n = y ++ n' -> x = y /\ n = n'.
Proof.
  intros El E.
  assert (Ex : length x = length y).
  { apply (f_equal (@length _)) in E. rewrite !length_app in E. lia. }
  apply app_same_length; assumption.
Qed.

(** A meta tag text that begins in a text with four quotes, between
    texts without quotes, has its four quotes there: its attribute name
    ends the text before the first quote, its key is the first quoted
    text and its content the second. *)
Lemma four_quotes_meta_text head N mid V tail q1 q2 q3 q4 attr key p2 s v rest :
  count_quotes head = 0 -> no_quote N -> count_quotes mid = 0 ->
  no_quote V -> count_quotes tail = 0 ->
  is_quote q1 = true -> is_quote q2 = true ->
  is_quote q3 = true -> is_quote q4 = true ->
  head ++ q1 :: N ++ q2 :: mid ++ q3 :: V ++ q4 :: tail = p2 ++ s ->
  meta_text attr key s v rest ->
  exists m a n b c,
    head = p2 ++ m ++ a ++ n /\ same_ci m (js "<meta") /\
    same_ci n (js attr ++ js "=") /\ same_ci N key /\
    mid = b ++ c /\ same_ci c (js "content=") /\ v = V.
Proof.
  intros Hhead HN Hmid HV Htail Hq1 Hq2 Hq3 Hq4 E
         (m & a & n & p1 & k & p2' & b & c & p3 & p4 & d & -> & Hm & Ha & Hn
          & Hp1 & Hk & Hp2 & Hb & Hc & Hp3 & Hv & Hp4 & Hd).
  assert (E2 : head ++ q1 :: N ++ q2 :: mid ++ q3 :: V ++ q4 :: tail
               = (p2 ++ m ++ a ++ n) ++ p1 :: k ++ p2' :: (b ++ c)
                   ++ p3 :: v ++ p4 :: (d ++ 62%N :: rest)).
  { rewrite E. repeat (rewrite <- ?app_assoc; cbn [app]). reflexivity. }
  clear E.
  assert (Hcount : count_quotes (p2 ++ m ++ a ++ n) = 0 /\ count_quotes k = 0 /\
                   count_quotes (b ++ c) = 0).
  { apply (f_equal count_quotes) in E2.
    rewrite !count_quotes_app, (count_quotes_quote q1), !count_quotes_app,
      (count_quotes_quote q2), !count_quotes_app, (count_quotes_quote q3),
      !count_quotes_app, (count_quotes_quote q4), (count_quotes_quote p1),
      !count_quotes_app, (count_quotes_quote p2'), !count_quotes_app,
      (count_quotes_quote p3), !count_quotes_app, (count_quotes_quote p4),
      (count_quotes_none N), (count_quotes_none V), (count_quotes_none v),
      Hhead, Hmid, Htail in E2 by assumption.
    rewrite !count_quotes_app. lia. }
  destruct Hcount as (H1 & H2 & H3).
  apply split_at_quote in E2 as [E1 E2]; auto; [|congruence].
  apply split_at_quote in E2 as [Ek E2]; auto;
    [|rewrite (count_quotes_none N); auto].
  apply split_at_quote in E2 as [Ebc E2]; auto; [|congruence].
  apply split_at_quote in E2 as [Ev _]; auto;
    [|rewrite (count_quotes_none V), (count_quotes_none v); auto].
  subst k. exists m, a, n, b, c. repeat split; auto.
Qed.

(** The same for a document: the tag after a text without [<]. *)
Lemma four_quotes_has_meta_text pre head N mid V tail q1 q2 q3 q4 attr key :
  no_lt pre ->
  count_quotes head = 0 -> no_quote N -> count_quotes mid = 0 ->
  no_quote V -> count_quotes tail = 0 ->
  is_quote q1 = true -> is_quote q2 = true ->
  is_quote q3 = true -> is_quote q4 = true ->
  forall pre0 s v rest,
    pre ++ head ++ q1 :: N ++ q2 :: mid ++ q3 :: V ++ q4 :: tail = pre0 ++ s ->
    meta_text attr key s v rest ->
    exists p2 m a n b c,
      pre0 = pre ++ p2 /\
      head = p2 ++ m ++ a ++ n /\ same_ci m (js "<meta") /\
      same_ci n (js attr ++ js "=") /\ same_ci N key /\
      mid = b ++ c /\ same_ci c (js "content=") /\ v = V.
Proof.
  intros Hpre Hhead HN Hmid HV Htail Hq1 Hq2 Hq3 Hq4 pre0 s v rest E Ht.
  assert (Hs : exists s', s = 60%N :: s').
  { destruct Ht as (m & a & n & p1 & k & p2' & b & c & p3 & p4 & d & -> & Hm & _).
    destruct m as [|c0 m]; [discriminate|].
    unfold same_ci in Hm. change (js "<meta") with (60%N :: js "meta") in Hm.
    cbn [map] in Hm. injection Hm as Hc0 _.
    assert (c0 = 60%N) as ->.
    { apply N.eqb_eq. rewrite N.eqb_sym, <- canon_eqb_other by lia.
      apply N.eqb_eq. auto. }
    simpl. eauto. }
  destruct Hs as (s' & Es).
  assert (E' := E). rewrite Es in E'.
  apply (prefix_before (fun c => (c =? 60)%N)) in E' as (p2 & ->); auto.
  rewrite <- app_assoc in E. apply app_inv_head in E.
  destruct (four_quotes_meta_text head N mid V tail q1 q2 q3 q4 attr key
              p2 s v rest) as (m & a & n & b & c & H); auto.
  exists p2, m, a, n, b, c. tauto.
Qed.

End SingleTag.

Section MetaTags.
Context {U : UnicodeData}.

(** The end of a text that ends with a text the same as [t] up to
    letter case is the same as [t]. *)
Lemma same_ci_suffix head x n t :
  head = x ++ n -> same_ci n t ->
  same_ci (skipn (length head - length t) head) t.
Proof.
  intros -> Hn. apply same_ci_length in Hn as Hl.
  rewrite length_app, <- Hl, Nat.add_sub, skipn_app, skipn_all, Nat.sub_diag.
  exact Hn.
Qed.

(** The meta tag of the documents below, after the text [pre] and
    before the text [post]. *)
Lemma meta_tag_has_text (attr : string) key pre N V post q1 q2 q3 q4 :
  same_ci N key -> no_quote V ->
  is_quote q1 = true -> is_quote q2 = true ->
  is_quote q3 = true -> is_quote q4 = true ->
  has_meta_text attr key
    (pre ++ js "<meta " ++ (js attr ++ js "=") ++ q1 :: N ++ q2 :: js " content="
         ++ q3 :: V ++ q4 :: 62%N :: post).
Proof.
  intros HN HV Hq1 Hq2 Hq3 Hq4.
  exists pre. eexists. exists V, post. split; [reflexivity|].
  exists (js "<meta"), (js " "), (js attr ++ js "="), q1, N, q2, (js " "),
    (js "content="), q3, q4, [].
  repeat split; auto.
Qed.

(** The pattern for [attr] and a key that the name of the tag is, up to
    letter case, finds the content of the tag. *)
Lemma meta_search_value (attr : string) key pre N V post q1 q2 q3 q4 :
  no_quote (js attr) -> same_ci N key ->
  no_lt pre -> no_quote N -> no_quote V -> no_quote post ->
  is_quote q1 = true -> is_quote q2 = true ->
  is_quote q3 = true -> is_quote q4 = true ->
  exists m,
    search (meta_regex attr key)
      (pre ++ js "<meta " ++ (js attr ++ js "=") ++ q1 :: N ++ q2
           :: js " content=" ++ q3 :: V ++ q4 :: 62%N :: post) 0 = Some m /\
    capture m 1 = Some V.
Proof.
  intros Hattr HN Hpre HNq HV Hpost Hq1 Hq2 Hq3 Hq4.
  pose proof (meta_tag_has_text attr key pre N V post q1 q2 q3 q4
                HN HV Hq1 Hq2 Hq3 Hq4) as Hhas.
  destruct (search (meta_regex attr key) _ 0) as [m|] eqn:Hm.
  2: { apply search_meta_None in Hm. contradiction. }
  exists m. split; [reflexivity|].
  apply search_meta_Some in Hm as (v & Hc & (pre0 & s & rest & E & Ht & _)).
  rewrite Hc. f_equal.
  assert (E2 : pre ++ (js "<meta " ++ js attr ++ js "=") ++ q1 :: N ++ q2
                   :: js " content=" ++ q3 :: V ++ q4 :: (62%N :: post)
               = pre0 ++ s).
  { rewrite <- E. repeat (rewrite <- ?app_assoc; cbn [app]). reflexivity. }
  eapply four_quotes_has_meta_text in E2; eauto.
  - destruct E2 as (p2 & m0 & a & n & b & c & H). tauto.
  - rewrite !count_quotes_app, (count_quotes_none (js attr)) by assumption.
    reflexivity.
  - change (62%N :: post) with ([62%N] ++ post).
    rewrite count_quotes_app, (count_quotes_none post) by assumption.
    reflexivity.
Qed.

(** No meta tag text for [attr] begins in a document whose one tag,
    with four quotes, has before its first quote a text that does not
    end with [attr] and [=]. *)
Lemma meta_search_other_attribute (attr : string) key pre head N mid V tail
      q1 q2 q3 q4 :
  no_lt pre ->
  count_quotes head = 0 -> no_quote N -> count_quotes mid = 0 ->
  no_quote V -> count_quotes tail = 0 ->
  is_quote q1 = true -> is_quote q2 = true ->
  is_quote q3 = true -> is_quote q4 = true ->
  ~ same_ci (skipn (length head - length (js attr ++ js "=")) head)
            (js attr ++ js "=") ->
  search (meta_regex attr key)
    (pre ++ head ++ q1 :: N ++ q2 :: mid ++ q3 :: V ++ q4 :: tail) 0 = None.
Proof.
  intros Hpre Hhead HN Hmid HV Htail Hq1 Hq2 Hq3 Hq4 Hno.
  destruct (search (meta_regex attr key) _ 0) as [m|] eqn:Hm; [|reflexivity].
  apply search_meta_Some in Hm as (v & _ & (pre0 & s & rest & E & Ht & _)).
  eapply four_quotes_has_meta_text in E; eauto.
  destruct E as (p2 & m0 & a & n & b & c & _ & Eh & _ & Hn & _).
  exfalso. apply Hno.
  apply (same_ci_suffix head (p2 ++ m0 ++ a) n); auto.
  rewrite Eh, <- !app_assoc. reflexivity.
Qed.

(** The same when the first quoted text is not the key. *)
Lemma meta_search_other_key (attr : string) key pre head N mid V tail
      q1 q2 q3 q4 :
  no_lt pre ->
  count_quotes head = 0 -> no_quote N -> count_quotes mid = 0 ->
  no_quote V -> count_quotes tail = 0 ->
  is_quote q1 = true -> is_quote q2 = true ->
  is_quote q3 = true -> is_quote q4 = true ->
  ~ same_ci N key ->
  search (meta_regex attr key)
    (pre ++ head ++ q1 :: N ++ q2 :: mid ++ q3 :: V ++ q4 :: tail) 0 = None.
Proof.
  intros Hpre Hhead HN Hmid HV Htail Hq1 Hq2 Hq3 Hq4 Hno.
  destruct (search (meta_regex attr key) _ 0) as [m|] eqn:Hm; [|reflexivity].
  apply search_meta_Some in Hm as (v & _ & (pre0 & s & rest & E & Ht & _)).
  eapply four_quotes_has_meta_text in E; eauto.
  destruct E as (p2 & m0 & a & n & b & c & _ & _ & _ & _ & HNk & _).
  contradiction.
Qed.

Lemma count_quotes_tail post : no_quote post -> count_quotes (62%N :: post) = 0.
Proof.
  intros Hp. change (62%N :: post) with ([62%N] ++ post).
  now rewrite count_quotes_app, (count_quotes_none post).
Qed.

(** The two searches of the extractor in a document whose one tag is a
    meta tag with the key as its property. *)
Lemma meta_property_searches key pre N V post q1 q2 q3 q4 :
  same_ci N key ->
  no_lt pre -> no_quote N -> no_quote V -> no_quote post ->
  is_quote q1 = true -> is_quote q2 = true ->
  is_quote q3 = true -> is_quote q4 = true ->
  search (meta_regex "name" key)
    (pre ++ js "<meta property=" ++ q1 :: N ++ q2 :: js " content="
         ++ q3 :: V ++ q4 :: 62%N :: post) 0 = None /\
  exists m,
    search (meta_regex "property" key)
      (pre ++ js "<meta property=" ++ q1 :: N ++ q2 :: js " content="
           ++ q3 :: V ++ q4 :: 62%N :: post) 0 = Some m /\
    capture m 1 = Some V.
Proof.
  intros HN Hpre HNq HV Hpost Hq1 Hq2 Hq3 Hq4. split.
  - apply (meta_search_other_attribute "name" key pre (js "<meta property=")
             N (js " content=") V (62%N :: post) q1 q2 q3 q4);
      auto using count_quotes_tail.
    intros H. vm_compute in H. discriminate.
  - exact (meta_search_value "property" key pre N V post q1 q2 q3 q4
             eq_refl HN Hpre HNq HV Hpost Hq1 Hq2 Hq3 Hq4).
Qed.


(** X9: the order of the attributes.  For a document whose one tag is
    a meta tag of the two attributes [content] and [name], in this
    order, after a text without [<] and before a text without quotes,
    the name and the content holding no quote, the extractor returns the
    empty string for every key of pattern characters, the name of the
    tag included: the tag is not found. *)
Theorem getMetaContent_content_first key pre N V post q1 q2 q3 q4 :
  pattern_characters key ->
  no_lt pre -> no_quote N -> no_quote V -> no_quote post ->
  is_quote q1 = true -> is_quote q2 = true ->
  is_quote q3 = true -> is_quote q4 = true ->
  getMetaContent
    (pre ++ js "<meta content=" ++ q1 :: V ++ q2 :: js " name="
         ++ q3 :: N ++ q4 :: 62%N :: post) key
  = Some [].
Proof.
  intros Hk Hpre HNq HV Hpost Hq1 Hq2 Hq3 Hq4.
  rewrite getMetaContent_unfold by assumption.
  rewrite (meta_search_other_attribute "name" key pre (js "<meta content=")
             V (js " name=") N (62%N :: post) q1 q2 q3 q4);
    auto using count_quotes_tail.
  2: { intros H. vm_compute in H. discriminate. }
  rewrite (meta_search_other_attribute "property" key pre (js "<meta content=")
             V (js " name=") N (62%N :: post) q1 q2 q3 q4);
    auto using count_quotes_tail.
  intros H. vm_compute in H. discriminate.
Qed.

(** The title pattern matches nowhere in a document whose one [<]
    begins a meta tag. *)
Lemma title_search_meta pre rest1 :
  no_lt pre -> no_lt rest1 ->
  search (tag_regex (js "title")) (pre ++ 60%N :: 109%N :: rest1) 0 = None.
Proof.
  intros Hpre Hrest.
  rewrite (search_after_text (tag_regex (js "title")) _ pre _ 0 eq_refl Hpre).
  assert (Hh : match_here (tag_regex (js "title")) (60%N :: 109%N :: rest1)
               = None).
  { apply match_here_None. intros w rest caps E Hl.
    cbn [nodes tag_regex] in Hl. unfold tag_nodes, lit in Hl.
    apply lang_seq_char in Hl as (c0 & w1 & -> & _ & Hl).
    apply lang_seq_lits in Hl as (k & w2 & -> & Hk & _).
    destruct k as [|c1 k]; [discriminate|].
    simpl in E. injection E as _ <- _.
    vm_compute in Hk. discriminate. }
  cbn [search]. rewrite Hh.
  apply (search_no_lt (tag_regex (js "title")) _ (109%N :: rest1) _ eq_refl).
  unfold no_lt in *. simpl. exact Hrest.
Qed.

Lemma no_lt_quote q s : is_quote q = true -> no_lt s -> no_lt (q :: s).
Proof.
  unfold no_lt. simpl. intros Hq ->.
  unfold is_quote in Hq. apply orb_true_iff in Hq as [Hq|Hq];
    apply N.eqb_eq in Hq; subst q; reflexivity.
Qed.

Lemma no_lt_gt s : no_lt s -> no_lt (62%N :: s).
Proof. unfold no_lt. simpl. auto. Qed.

(** X10: the fallback of the title resolver to [og:title].  For a
    document whose one tag is a meta tag of the two attributes
    [property] and [content], in this order, the property being
    [og:title] in any letter case and the content not empty and without
    quote and [<], after a text without [<] and before a text without
    quote and [<], the resolver returns that content. *)
Theorem getDocumentTitle_og_title pre N V post q1 q2 q3 q4 :
  same_ci N (js "og:title") -> V <> [] ->
  no_lt pre -> no_quote V -> no_lt V -> no_quote post -> no_lt post ->
  is_quote q1 = true -> is_quote q2 = true ->
  is_quote q3 = true -> is_quote q4 = true ->
  getDocumentTitle
    (pre ++ js "<meta property=" ++ q1 :: N ++ q2 :: js " content="
         ++ q3 :: V ++ q4 :: 62%N :: post)
  = Some V.
Proof.
  intros HN HVne Hpre HV HVlt Hpost Hpostlt Hq1 Hq2 Hq3 Hq4.
  assert (HNq : no_quote N) by (eapply same_ci_no_quote; eauto; reflexivity).
  assert (HNlt : no_lt N) by (eapply same_ci_no_lt; eauto; reflexivity).
  unfold getDocumentTitle.
  rewrite getTagContent_unfold by reflexivity.
  change (js "<meta property=") with (60%N :: 109%N :: js "eta property=").
  cbn [app].
  rewrite title_search_meta; auto.
  2: { repeat first [ assumption | reflexivity
                    | apply no_lt_app; split
                    | apply no_lt_quote; [assumption|]
                    | apply no_lt_gt ]. }
  cbn [truthy].
  change (60%N :: 109%N :: js "eta property=" ++ q1 :: N ++ q2 :: js " content="
              ++ q3 :: V ++ q4 :: 62%N :: post)
    with (js "<meta property=" ++ q1 :: N ++ q2 :: js " content="
              ++ q3 :: V ++ q4 :: 62%N :: post).
  rewrite getMetaContent_unfold by reflexivity.
  destruct (meta_property_searches (js "og:title") pre N V post q1 q2 q3 q4
              HN Hpre HNq HV Hpost Hq1 Hq2 Hq3 Hq4)
    as (-> & m & -> & ->).
  destruct V; [congruence | reflexivity].
Qed.

(** X11: the last fallback of the title resolver.  For a document
    whose one tag is a meta tag of the two attributes [name] and
    [content], in this order, the name being [title] in any letter case
    and the content not empty and without quote and [<], after a text
    without [<] and before a text without quote and [<], the resolver
    returns that content. *)
Theorem getDocumentTitle_meta_title pre N V post q1 q2 q3 q4 :
  same_ci N (js "title") -> V <> [] ->
  no_lt pre -> no_quote V -> no_lt V -> no_quote post -> no_lt post ->
  is_quote q1 = true -> is_quote q2 = true ->
  is_quote q3 = true -> is_quote q4 = true ->
  getDocumentTitle
    (pre ++ js "<meta name=" ++ q1 :: N ++ q2 :: js " content="
         ++ q3 :: V ++ q4 :: 62%N :: post)
  = Some V.
Proof.
  intros HN HVne Hpre HV HVlt Hpost Hpostlt Hq1 Hq2 Hq3 Hq4.
  assert (HNq : no_quote N) by (eapply same_ci_no_quote; eauto; reflexivity).
  assert (HNlt : no_lt N) by (eapply same_ci_no_lt; eauto; reflexivity).
  unfold getDocumentTitle.
  rewrite getTagContent_unfold by reflexivity.
  change (js "<meta name=") with (60%N :: 109%N :: js "eta name=").
  cbn [app].
  rewrite title_search_meta; auto.
  2: { repeat first [ assumption | reflexivity
                    | apply no_lt_app; split
                    | apply no_lt_quote; [assumption|]
                    | apply no_lt_gt ]. }
  cbn [truthy].
  change (60%N :: 109%N :: js "eta name=" ++ q1 :: N ++ q2 :: js " content="
              ++ q3 :: V ++ q4 :: 62%N :: post)
    with (js "<meta name=" ++ q1 :: N ++ q2 :: js " content="
              ++ q3 :: V ++ q4 :: 62%N :: post).
  rewrite (getMetaContent_unfold _ (js "og:title")) by reflexivity.
  rewrite (meta_search_other_key "name" (js "og:title") pre (js "<meta name=")
             N (js " content=") V (62%N :: post) q1 q2 q3 q4);
    auto using count_quotes_tail.
  2: { intros H. apply same_ci_length in H, HN. rewrite HN in H. discriminate. }
  rewrite (meta_search_other_attribute "property" (js "og:title") pre
             (js "<meta name=") N (js " content=") V (62%N :: post)
             q1 q2 q3 q4);
    auto using count_quotes_tail.
  2: { intros H. vm_compute in H. discriminate. }
  cbn [truthy].
  rewrite (getMetaContent_unfold _ (js "title")) by reflexivity.
  destruct (meta_search_value "name" (js "title") pre N V post q1 q2 q3 q4
              eq_refl HN Hpre HNq HV Hpost Hq1 Hq2 Hq3 Hq4)
    as (m & Hm & Hc).
  change (pre ++ js "<meta " ++ (js "name" ++ js "=") ++ q1 :: N ++ q2
              :: js " content=" ++ q3 :: V ++ q4 :: 62%N :: post)
    with (pre ++ js "<meta name=" ++ q1 :: N ++ q2 :: js " content="
              ++ q3 :: V ++ q4 :: 62%N :: post) in Hm.
  rewrite Hm. exact Hc.
Qed.

End MetaTags.


Lemma getMetaContent_content_first_witness :
  getMetaContent (U := ascii_case_table)
    (js "text " ++ js "<meta content=" ++ 34%N :: js "a page" ++ 34%N
        :: js " name=" ++ 34%N :: js "description" ++ 34%N :: 62%N :: js "<p>")
    (js "description")
  = Some [].
Proof.
  apply (getMetaContent_content_first (U := ascii_case_table)
           (js "description") (js "text ") (js "description") (js "a page")
           (js "<p>") 34%N 34%N 34%N 34%N); reflexivity.
Defined.

Lemma getDocumentTitle_og_title_witness :
  getDocumentTitle (U := ascii_case_table)
    (js "text " ++ js "<meta property=" ++ 39%N :: js "og:title" ++ 39%N
        :: js " content=" ++ 39%N :: js "Y" ++ 39%N :: 62%N :: js " more")
  = Some (js "Y").
Proof.
  apply (getDocumentTitle_og_title (U := ascii_case_table) (js "text ")
           (js "og:title") (js "Y") (js " more") 39%N 39%N 39%N 39%N);
    (reflexivity || discriminate).
Defined.

Lemma getDocumentTitle_meta_title_witness :
  getDocumentTitle (U := ascii_case_table)
    (js "text " ++ js "<meta name=" ++ 39%N :: js "Title" ++ 39%N
        :: js " content=" ++ 39%N :: js "Z" ++ 39%N :: 62%N :: js " more")
  = Some (js "Z").
Proof.
  apply (getDocumentTitle_meta_title (U := ascii_case_table) (js "text ")
           (js "Title") (js "Z") (js " more") 39%N 39%N 39%N 39%N);
    (reflexivity || discriminate).
Defined.

(* ================================================================== *)
(** * The paragraphs of a document and their words *)
(* ================================================================== *)

Section ParagraphMatch.
Context {U : UnicodeData}.

Lemma flat_map_single {A} (l : list A) : flat_map (fun x => [x]) l = l.
Proof. induction l; simpl; congruence. Qed.

Lemma flat_map_of_map {A B C} (f : B -> list C) (g : A -> B) l :
  flat_map f (map g l) = flat_map (fun x => f (g x)) l.
Proof. induction l; simpl; congruence. Qed.

(** A pattern character at the head of the terms. *)
Lemma m_seq_lit c ns ch s caps :
  m_seq true (lit c :: ns) (ch :: s, caps)
  = if (Canonicalize true c =? Canonicalize true ch)%N
    then m_seq true ns (s, caps) else [].
Proof.
  unfold lit. cbn [m_seq m_node quant one atom_matches fst snd].
  destruct (Canonicalize true c =? Canonicalize true ch)%N; simpl;
    [apply app_nil_r | reflexivity].
Qed.

Lemma m_seq_lit_other c ns ch s caps :
  (c < 65 \/ 90 < c < 97 \/ 122 < c < 128)%N -> ch <> c ->
  m_seq true (lit c :: ns) (ch :: s, caps) = [].
Proof.
  intros Hc Hne. rewrite m_seq_lit, canon_eqb_other by exact Hc.
  destruct (N.eqb_spec c ch); [congruence | reflexivity].
Qed.

(** The attributes of an opening tag: the greedy repetition of [[^>]]
    before [>] ends at the first [>]. *)
Lemma m_seq_attributes attrs ns s caps :
  no_gt attrs ->
  m_seq true (Single not_gt (Star true) :: lit 62%N :: ns)
        (attrs ++ 62%N :: s, caps)
  = m_seq true ns (s, caps).
Proof.
  intros Ha. cbn [m_seq m_node quant star fst snd].
  rewrite flat_map_of_map. cbn [fst snd].
  induction attrs as [|x t IH]; cbn [app star_greedy].
  - rewrite not_gt_matches. cbn [N.eqb Pos.eqb negb flat_map].
    change (flat_map (m_seq true ns)
              (m_node true (lit 62%N) (62%N :: s, caps)) ++ [])
      with (m_seq true (lit 62%N :: ns) (62%N :: s, caps) ++ []).
    rewrite m_seq_lit, N.eqb_refl. apply app_nil_r.
  - unfold no_gt in Ha. cbn [forallb] in Ha.
    apply andb_true_iff in Ha as [Hx Ha].
    rewrite not_gt_matches, Hx. rewrite flat_map_app, IH by exact Ha.
    cbn [flat_map].
    change (flat_map (m_seq true ns)
              (m_node true (lit 62%N) (x :: t ++ 62%N :: s, caps)) ++ [])
      with (m_seq true (lit 62%N :: ns) (x :: t ++ 62%N :: s, caps) ++ []).
    rewrite m_seq_lit_other; [now rewrite !app_nil_r | lia |].
    apply negb_true_iff, N.eqb_neq in Hx. exact Hx.
Qed.

Lemma m_seq_opt a ns s caps :
  m_seq true (Single a (Opt true) :: ns) (s, caps)
  = flat_map (m_seq true ns) (map (fun s' => (s', caps)) (one true a s))
    ++ m_seq true ns (s, caps).
Proof.
  cbn [m_seq m_node quant fst snd]. rewrite map_app, flat_map_app.
  cbn [map flat_map]. now rewrite app_nil_r.
Qed.

(** The tag that ends a span, after its [<]. *)
Lemma m_seq_closing cl rest caps :
  same_ci cl (js "</p>") \/ same_ci cl (js "<p>") ->
  exists cl',
    cl = 60%N :: cl' /\
    m_seq true [Single (AChar 47%N) (Opt true); lit 112%N; lit 62%N]
          (cl' ++ rest, caps)
    = [(rest, caps)].
Proof.
  assert (Hlt : forall c, Canonicalize true c = Canonicalize true 60%N ->
                          c = 60%N).
  { intros c Hc. apply N.eqb_eq. rewrite N.eqb_sym, <- canon_eqb_other by lia.
    apply N.eqb_eq. auto. }
  unfold same_ci. intros [Hc|Hc].
  - change (js "</p>") with [60%N; 47%N; 112%N; 62%N] in Hc.
    destruct cl as [|c1 [|c2 [|c3 [|c4 [|]]]]]; try discriminate.
    cbn [map] in Hc. injection Hc as H1 H2 H3 H4.
    change (Canonicalize true c2 = Canonicalize true 47%N) in H2.
    change (Canonicalize true c3 = Canonicalize true 112%N) in H3.
    change (Canonicalize true c4 = Canonicalize true 62%N) in H4.
    apply Hlt in H1. subst c1. eexists. split; [reflexivity|].
    rewrite m_seq_opt. cbn [app one atom_matches].
    rewrite H2, N.eqb_refl. cbn [map flat_map].
    rewrite !m_seq_lit, H2, H3, H4, !N.eqb_refl.
    reflexivity.
  - change (js "<p>") with [60%N; 112%N; 62%N] in Hc.
    destruct cl as [|c1 [|c2 [|c3 [|]]]]; try discriminate.
    cbn [map] in Hc. injection Hc as H1 H2 H3.
    change (Canonicalize true c2 = Canonicalize true 112%N) in H2.
    change (Canonicalize true c3 = Canonicalize true 62%N) in H3.
    apply Hlt in H1. subst c1. eexists. split; [reflexivity|].
    rewrite m_seq_opt. cbn [app one atom_matches].
    rewrite H2. cbn [map flat_map].
    rewrite !m_seq_lit, H2, H3, !N.eqb_refl.
    reflexivity.
Qed.

(** A lazy repetition of the dot moves over a text on one line at
    whose positions the rest of the pattern fails. *)
Lemma star_lazy_skip (H : list N -> list (list N * list (nat * list N)))
      t rest :
  no_line_terminator t ->
  (forall u1 u2, t = u1 ++ u2 -> u2 <> [] -> H (u2 ++ rest) = []) ->
  flat_map H (star_lazy true ADot (t ++ rest))
  = flat_map H (star_lazy true ADot rest).
Proof.
  induction t as [|x t IH]; intros Hn Hk; [reflexivity|].
  unfold no_line_terminator in Hn. cbn [forallb] in Hn.
  apply andb_true_iff in Hn as [Hx Hn].
  cbn [app star_lazy flat_map atom_matches]. rewrite Hx.
  pose proof (Hk [] (x :: t) eq_refl) as H0. cbn [app] in H0.
  rewrite H0 by discriminate. cbn [app]. apply IH; [exact Hn|].
  intros u1 u2 -> Hne. apply (Hk (x :: u1) u2); auto.
Qed.

Lemma app_nil_nil {A} (a b : list A) : a = [] -> b = [] -> a ++ b = [].
Proof. now intros -> ->. Qed.

(** The closing tag is not matched at a tag that is neither [<p>] nor
    [</p>]. *)
Lemma closer_fails_tag inside more caps :
  inside <> [] -> no_gt inside ->
  ~ same_ci inside (js "p") -> ~ same_ci inside (js "/p") ->
  m_seq true (lit 60%N :: closer) (60%N :: inside ++ 62%N :: more, caps) = [].
Proof.
  intros Hne Hgt Hp Hsp. rewrite m_seq_lit, N.eqb_refl. unfold closer.
  rewrite m_seq_opt.
  assert (Hnext : forall l ns caps',
             l <> [] -> no_gt l ->
             m_seq true (lit 62%N :: ns) (l ++ 62%N :: more, caps') = []).
  { intros l ns caps' Hl Hg. destruct l as [|c2 n2]; [congruence|].
    unfold no_gt in Hg. cbn [forallb] in Hg.
    apply andb_true_iff in Hg as [Hc2 _].
    apply negb_true_iff, N.eqb_neq in Hc2.
    cbn [app]. apply m_seq_lit_other; [lia | exact Hc2]. }
  destruct inside as [|c1 n1]; [congruence|].
  unfold no_gt in Hgt. cbn [forallb] in Hgt.
  apply andb_true_iff in Hgt as [_ Hgt].
  cbn [app one atom_matches]. apply app_nil_nil.
  - destruct (Canonicalize true 47%N =? Canonicalize true c1)%N eqn:E1;
      [|reflexivity].
    cbn [map flat_map]. rewrite app_nil_r.
    destruct n1 as [|c2 n2]; cbn [app]; rewrite m_seq_lit.
    + rewrite N.eqb_sym, canon_eqb_other by lia. reflexivity.
    + destruct (Canonicalize true 112%N =? Canonicalize true c2)%N eqn:E2;
        [|reflexivity].
      cbn [forallb] in Hgt. apply andb_true_iff in Hgt as [_ Hgt].
      apply Hnext; [|exact Hgt]. intros ->. apply Hsp. unfold same_ci.
      change (js "/p") with [47%N; 112%N]. cbn [map].
      apply N.eqb_eq in E1, E2. now rewrite E1, E2.
  - rewrite m_seq_lit.
    destruct (Canonicalize true 112%N =? Canonicalize true c1)%N eqn:E1;
      [|reflexivity].
    apply Hnext; [|exact Hgt]. intros ->. apply Hp. unfold same_ci.
    change (js "p") with [112%N]. cbn [map]. apply N.eqb_eq in E1.
    now rewrite E1.
Qed.

Lemma no_lt_head c s : no_lt (c :: s) -> c <> 60%N.
Proof. intros Hs. now apply no_lt_cons in Hs. Qed.

(** The closing tag is matched nowhere in a text or a tag of a
    paragraph on one line. *)
Lemma closer_fails_inline i rest u1 u2 caps :
  inline_ok i -> render_inline i = u1 ++ u2 -> u2 <> [] ->
  m_seq true (lit 60%N :: closer) (u2 ++ rest, caps) = [].
Proof.
  intros Hi E Hne. destruct u2 as [|c u2]; [congruence|]. cbn [app].
  destruct i as [t|inside]; cbn [render_inline inline_ok] in *.
  - destruct Hi as [Ht _]. rewrite E in Ht. apply no_lt_app in Ht as [_ Ht].
    apply m_seq_lit_other; [lia | now apply no_lt_head in Ht].
  - destruct Hi as (Hn & Hlt & Hgt & _ & Hp & Hsp).
    destruct u1 as [|d u1]; cbn [app] in E.
    + injection E as <- <-. rewrite <- app_assoc. cbn [app].
      now apply closer_fails_tag.
    + injection E as _ E.
      assert (Hs : no_lt (inside ++ [62%N]))
        by (apply no_lt_app; split; [exact Hlt | reflexivity]).
      rewrite E in Hs. apply no_lt_app in Hs as [_ Hs].
      apply m_seq_lit_other; [lia | now apply no_lt_head in Hs].
Qed.

Lemma inline_no_line_terminator i :
  inline_ok i -> no_line_terminator (render_inline i).
Proof.
  destruct i as [t|inside]; cbn [render_inline inline_ok].
  - now intros [_ Ht].
  - intros (_ & _ & _ & Hn & _). unfold no_line_terminator in *.
    cbn [forallb]. rewrite forallb_app, Hn. reflexivity.
Qed.

(** The group of the span pattern, a lazy repetition of the dot before
    the closing tag: the first match captures the content of the
    paragraph. *)
Lemma m_seq_lazy_body items s2 caps :
  Forall inline_ok items ->
  exists L,
    m_seq true (Group 1 [Single ADot (Star false)] :: lit 60%N :: closer)
          (render_body items ++ 60%N :: s2, caps)
    = m_seq true closer (s2, (1, render_body items) :: caps) ++ L.
Proof.
  intros Hitems.
  rewrite m_seq_cons, m_node_group.
  cbn [m_seq m_node quant star fst snd].
  rewrite flat_map_single, map_map, flat_map_of_map. cbn [fst snd].
  pose (s := render_body items ++ 60%N :: s2).
  pose (H := fun x : list N =>
               m_seq true (lit 60%N :: closer) (x, (1, consumed s x) :: caps)).
  change (exists L,
             flat_map H (star_lazy true ADot (render_body items ++ 60%N :: s2))
             = m_seq true closer (s2, (1, render_body items) :: caps) ++ L).
  assert (Hskip : forall l rest,
             Forall inline_ok l ->
             flat_map H (star_lazy true ADot (render_body l ++ rest))
             = flat_map H (star_lazy true ADot rest)).
  { induction l as [|i l IH]; intros rest Hl; [reflexivity|].
    inversion Hl as [|? ? Hi Hl']; subst.
    unfold render_body. cbn [map concat]. rewrite <- app_assoc.
    rewrite star_lazy_skip.
    - apply IH. exact Hl'.
    - now apply inline_no_line_terminator.
    - intros u1 u2 E Hne. unfold H.
      now apply (closer_fails_inline i _ u1 u2). }
  rewrite Hskip by exact Hitems. cbn [star_lazy flat_map].
  eexists. f_equal.
  unfold H, s. rewrite consumed_app, m_seq_lit, N.eqb_refl. reflexivity.
Qed.

(** The span pattern at the opening tag of a paragraph on one line:
    the first match ends with the first closing tag and captures the
    content of the paragraph. *)
Lemma match_here_paragraph o attrs items cl rest :
  same_ci o (js "<p") -> no_gt attrs -> Forall inline_ok items ->
  same_ci cl (js "</p>") \/ same_ci cl (js "<p>") ->
  match_here p_regex (o ++ attrs ++ 62%N :: render_body items ++ cl ++ rest)
  = Some (rest, [(1, render_body items)]).
Proof.
  intros Ho Ha Hi Hcl.
  unfold same_ci in Ho. change (js "<p") with [60%N; 112%N] in Ho.
  destruct o as [|c1 [|c2 [|]]]; try discriminate.
  cbn [map] in Ho. injection Ho as H1 H2.
  change (Canonicalize true c1 = Canonicalize true 60%N) in H1.
  change (Canonicalize true c2 = Canonicalize true 112%N) in H2.
  destruct (m_seq_closing cl rest [(1, render_body items)] Hcl)
    as (cl' & -> & Hc).
  unfold match_here. cbn [nodes p_regex ignoreCase app].
  rewrite m_seq_lit, H1, N.eqb_refl.
  rewrite m_seq_lit, H2, N.eqb_refl.
  rewrite m_seq_attributes by exact Ha.
  destruct (m_seq_lazy_body items (cl' ++ rest) [] Hi) as (L & E).
  unfold closer in E. rewrite E, Hc. reflexivity.
Qed.

End ParagraphMatch.

Section Words.
Context {U : UnicodeData}.

(** [trimStart] removes a text of white space. *)
Lemma trimStart_split s :
  exists ws, s = ws ++ trimStart s /\ forallb isWhiteSpace ws = true.
Proof.
  induction s as [|c s (ws & E & Hws)]; [exists []; auto|].
  cbn [trimStart]. destruct (isWhiteSpace c) eqn:Hc.
  - exists (c :: ws). cbn [app forallb]. rewrite Hc, Hws, <- E. auto.
  - exists []. auto.
Qed.

Lemma trimStart_length s : length (trimStart s) <= length s.
Proof.
  destruct (trimStart_split s) as (ws & E & _).
  rewrite E at 2. rewrite length_app. lia.
Qed.

Lemma trimEnd_split s :
  exists ws, s = trimEnd s ++ ws /\ forallb isWhiteSpace ws = true.
Proof.
  destruct (trimStart_split (rev s)) as (ws & E & Hws).
  exists (rev ws). split.
  - unfold trimEnd. rewrite <- rev_app_distr, <- E. symmetry.
    apply rev_involutive.
  - apply forallb_forall. intros x Hx. apply in_rev in Hx.
    rewrite forallb_forall in Hws. auto.
Qed.

Lemma count_words_trimStart s :
  count_words false (trimStart s) = count_words false s.
Proof.
  induction s as [|c s IH]; [reflexivity|].
  cbn [trimStart count_words]. destruct (isWhiteSpace c) eqn:Hc; [exact IH|].
  cbn [count_words]. now rewrite Hc.
Qed.

Lemma count_words_spaces b ws :
  forallb isWhiteSpace ws = true -> count_words b ws = 0.
Proof.
  revert b. induction ws as [|c ws IH]; intros b Hws; [reflexivity|].
  cbn [forallb] in Hws. apply andb_true_iff in Hws as [Hc Hws].
  cbn [count_words]. rewrite Hc. auto.
Qed.

Lemma count_words_trailing b s ws :
  forallb isWhiteSpace ws = true -> count_words b (s ++ ws) = count_words b s.
Proof.
  intros Hws. revert b. induction s as [|c s IH]; intros b; cbn [app].
  - now apply count_words_spaces.
  - cbn [count_words]. now rewrite !IH.
Qed.

(** [trim] removes no word. *)
Lemma count_words_trim s :
  count_words false (trim s) = count_words false s.
Proof.
  unfold trim. destruct (trimEnd_split (trimStart s)) as (ws & E & Hws).
  rewrite <- (count_words_trimStart s). rewrite E at 2.
  now rewrite count_words_trailing.
Qed.

(** The first way [\s+] matches takes all the white space. *)
Lemma star_greedy_spaces s :
  exists L, star_greedy false (ASpace false) s = trimStart s :: L.
Proof.
  induction s as [|c s (L & IH)]; [exists []; reflexivity|].
  cbn [star_greedy atom_matches xorb trimStart].
  destruct (isWhiteSpace c).
  - rewrite IH. eexists. reflexivity.
  - eexists. reflexivity.
Qed.

Lemma match_here_spaces c s :
  match_here spaces_regex (c :: s)
  = if isWhiteSpace c then Some (trimStart s, []) else None.
Proof.
  unfold match_here.
  cbn [nodes spaces_regex ignoreCase m_seq m_node quant one star
       atom_matches xorb fst snd].
  destruct (isWhiteSpace c); [|reflexivity].
  change (flat_map (star false true (ASpace false)) [s])
    with (star_greedy false (ASpace false) s ++ []).
  destruct (star_greedy_spaces s) as (L & ->). reflexivity.
Qed.

(** The parts of [split(/\s+/)] that are not empty are the words. *)
Lemma split_loop_words :
  forall fuel cur s parts,
    split_loop fuel spaces_regex cur s = Some parts ->
    length (filter truthy parts)
    = (if truthy cur then 1 else 0) + count_words (truthy cur) s.
Proof.
  induction fuel as [|fuel IH]; intros cur s parts; [discriminate|].
  cbn [split_loop]. destruct s as [|c s].
  - intros E. injection E as <-. cbn [filter count_words].
    destruct (truthy cur); reflexivity.
  - rewrite match_here_spaces. cbn [count_words].
    destruct (isWhiteSpace c) eqn:Hc.
    + assert (Hl : (length (trimStart s) =? length (c :: s)) = false).
      { apply Nat.eqb_neq. pose proof (trimStart_length s). simpl. lia. }
      rewrite Hl. cbn [andb].
      destruct (split_loop fuel spaces_regex [] (trimStart s)) as [ps|] eqn:Es;
        [|discriminate].
      intros E. injection E as <-. apply IH in Es. cbn [truthy] in Es.
      rewrite count_words_trimStart in Es. cbn [filter].
      destruct (truthy cur); cbn [length]; lia.
    + intros E. apply IH in E. rewrite E.
      assert (Ht : truthy (cur ++ [c]) = true) by (destruct cur; reflexivity).
      rewrite Ht. destruct (truthy cur); lia.
Qed.

Lemma String_split_words s parts :
  String_split (trim s) spaces_regex = Some parts ->
  length (filter truthy parts) = count_words false s.
Proof.
  rewrite <- (count_words_trim s). unfold String_split.
  destruct (trim s) as [|c t].
  - intros E. cbv in E. injection E as <-. reflexivity.
  - intros E. apply split_loop_words in E. exact E.
Qed.

(** A pattern character of a pattern without the [i] flag. *)
Lemma m_seq_lit_cs c ns ch s caps :
  m_seq false (lit c :: ns) (ch :: s, caps)
  = if (c =? ch)%N then m_seq false ns (s, caps) else [].
Proof.
  unfold lit. cbn [m_seq m_node quant one atom_matches fst snd].
  change (Canonicalize false c) with c. change (Canonicalize false ch) with ch.
  destruct (c =? ch)%N; simpl; [apply app_nil_r | reflexivity].
Qed.

(** The greedy repetition of [[^>]] before [>] in the tag pattern ends
    at the first [>]. *)
Lemma m_seq_inside l s caps :
  no_gt l ->
  flat_map (m_seq false [lit 62%N])
           (map (fun s' => (s', caps))
                (star_greedy false not_gt (l ++ 62%N :: s)))
  = [(s, caps)].
Proof.
  intros Hl. induction l as [|x l IH]; cbn [app star_greedy];
    rewrite not_gt_matches.
  - rewrite N.eqb_refl. cbn [negb map flat_map].
    rewrite m_seq_lit_cs, N.eqb_refl. reflexivity.
  - unfold no_gt in Hl. cbn [forallb] in Hl.
    apply andb_true_iff in Hl as [Hx Hl]. rewrite Hx.
    rewrite map_app, flat_map_app, IH by exact Hl. cbn [map flat_map].
    rewrite m_seq_lit_cs, N.eqb_sym.
    apply negb_true_iff in Hx. rewrite Hx. reflexivity.
Qed.

(** The tag pattern matches a tag whole. *)
Lemma match_here_tag inside rest :
  inside <> [] -> no_gt inside ->
  match_here tags_regex (60%N :: inside ++ 62%N :: rest) = Some (rest, []).
Proof.
  intros Hne Hgt. unfold match_here. cbn [nodes tags_regex ignoreCase].
  rewrite m_seq_lit_cs, N.eqb_refl.
  destruct inside as [|c l]; [congruence|].
  unfold no_gt in Hgt. cbn [forallb] in Hgt.
  apply andb_true_iff in Hgt as [Hc Hgt].
  cbn [app m_seq m_node quant one fst snd]. rewrite not_gt_matches, Hc.
  change (flat_map (star false true not_gt) [l ++ 62%N :: rest])
    with (star_greedy false not_gt (l ++ 62%N :: rest) ++ []).
  rewrite app_nil_r.
  change (hd_error (flat_map (m_seq false [lit 62%N])
                      (map (fun s' => (s', []))
                           (star_greedy false not_gt (l ++ 62%N :: rest))))
          = Some (rest, [])).
  rewrite m_seq_inside by exact Hgt. reflexivity.
Qed.

(** The leftmost tag after a text without [<]. *)
Lemma search_tag T inside rest i :
  no_lt T -> inside <> [] -> no_gt inside ->
  search tags_regex (T ++ 60%N :: inside ++ 62%N :: rest) i
  = Some {| index := i + length T; matched := 60%N :: inside ++ [62%N];
            captures := []; after := rest |}.
Proof.
  intros HT Hne Hgt.
  rewrite (search_after_text tags_regex _ T _ i eq_refl HT).
  rewrite (search_here tags_regex _ _ rest [])
    by now apply match_here_tag.
  replace (60%N :: inside ++ 62%N :: rest)
    with ((60%N :: inside ++ [62%N]) ++ rest)
    by (cbn [app]; now rewrite <- app_assoc).
  now rewrite consumed_app.
Qed.

(** [replace] puts a space for every tag of the content. *)
Lemma replace_items :
  forall items T fuel,
    Forall inline_ok items -> no_lt T ->
    length (render_body items) < fuel ->
    replace_loop fuel tags_regex (js " ") (T ++ render_body items)
    = Some (T ++ concat (map visible items)).
Proof.
  induction items as [|i items IH]; intros T fuel Hitems HT Hfuel.
  - destruct fuel as [|fuel]; [lia|]. cbn [replace_loop].
    unfold render_body. cbn [map concat]. rewrite app_nil_r.
    now rewrite (search_no_lt tags_regex _ T 0 eq_refl HT).
  - inversion Hitems as [|? ? Hi Hitems']; subst.
    unfold render_body in *. cbn [map concat] in *.
    rewrite length_app in Hfuel.
    destruct i as [t|inside]; cbn [render_inline visible inline_ok] in *.
    + destruct Hi as [Ht _]. rewrite !app_assoc.
      apply IH; [exact Hitems' | apply no_lt_app; auto | lia].
    + destruct Hi as (Hne & _ & Hgt & _).
      destruct fuel as [|fuel]; [lia|]. cbn [replace_loop].
      assert (E : (60%N :: inside ++ [62%N])
                  ++ concat (map render_inline items)
                  = 60%N :: inside ++ 62%N :: concat (map render_inline items))
        by (cbn [app]; now rewrite <- app_assoc).
      rewrite E. rewrite (search_tag T inside _ 0 HT Hne Hgt).
      cbn [matched after index].
      pose proof (IH [] fuel Hitems' eq_refl) as IH0. cbn [app] in IH0.
      rewrite IH0 by (cbn [length] in Hfuel; rewrite length_app in Hfuel;
                      simpl in Hfuel; lia).
      cbn [Nat.add]. rewrite firstn_app, firstn_all, Nat.sub_diag.
      cbn [firstn]. rewrite app_nil_r. reflexivity.
Qed.

(** The words the loop counts in a span that captures the content of a
    paragraph on one line. *)
Lemma words_in_body m items :
  captures m = [(1, render_body items)] -> Forall inline_ok items ->
  words_in m = count_words false (concat (map visible items)).
Proof.
  intros Hc Hitems. unfold words_in, capture. rewrite Hc.
  cbn [find fst snd Nat.eqb]. unfold String_replace.
  pose proof (replace_items items [] (S (length (render_body items)))
                Hitems eq_refl (Nat.lt_succ_diag_r _)) as Hr.
  cbn [app] in Hr. rewrite Hr.
  destruct (String_split_total (trim (concat (map visible items)))
              spaces_regex) as (parts & Ep).
  rewrite Ep. now apply String_split_words.
Qed.

End Words.

Section ParagraphCount.
Context {U : UnicodeData}.

(** The search finds a paragraph on one line at its opening tag. *)
Lemma search_paragraph p rest i :
  one_line p ->
  search p_regex (render p ++ rest) i
  = Some {| index := i + length (before p);
            matched := opening p ++ attributes p
                       ++ 62%N :: render_body (body p) ++ closing p;
            captures := [(1, render_body (body p))]; after := rest |}.
Proof.
  intros (Hb & Ho & Ha & Hi & Hc). unfold render.
  rewrite <- app_assoc.
  rewrite (search_after_text p_regex _ (before p) _ i eq_refl Hb).
  assert (E : (opening p ++ attributes p
               ++ 62%N :: render_body (body p) ++ closing p) ++ rest
              = opening p ++ attributes p
                ++ 62%N :: render_body (body p) ++ closing p ++ rest).
  { repeat (rewrite <- ?app_assoc; cbn [app]). reflexivity. }
  rewrite (search_here p_regex _ _ rest [(1, render_body (body p))]).
  - rewrite consumed_app. reflexivity.
  - rewrite E. now apply match_here_paragraph.
Qed.

Lemma render_length p : 0 < length (render p).
Proof. unfold render. rewrite !length_app. simpl. lia. Qed.

Lemma concat_render_length paras :
  length paras <= length (concat (map render paras)).
Proof.
  induction paras as [|p ps IH]; [reflexivity|].
  cbn [map concat length]. rewrite length_app.
  pose proof (render_length p). lia.
Qed.

Lemma count_lt_app a b : count_lt (a ++ b) = count_lt a + count_lt b.
Proof. unfold count_lt. now rewrite filter_app, length_app. Qed.

Lemma canon_lt c :
  Canonicalize true c = Canonicalize true 60%N -> c = 60%N.
Proof.
  intros Hc. apply N.eqb_eq. rewrite N.eqb_sym, <- canon_eqb_other by lia.
  apply N.eqb_eq. auto.
Qed.

(** A span holds two [<] at least: the one of its opening tag and the
    one of the tag that ends it.  In a text with one [<] or none, an
    opening tag without its end for one, the pattern matches nowhere. *)
Lemma search_p_one_lt s i : count_lt s <= 1 -> search p_regex s i = None.
Proof.
  intros Hs. apply search_None. intros pre suf ->.
  apply match_here_None. intros w rest caps -> Hl.
  apply p_lang in Hl as (o & a & v & T & -> & Ho & _ & _ & _ & Hne & HT).
  rewrite !count_lt_app in Hs.
  assert (H1 : 1 <= count_lt o).
  { unfold same_ci in Ho. change (js "<p") with [60%N; 112%N] in Ho.
    destruct o as [|c1 o]; [discriminate|].
    cbn [map] in Ho. injection Ho as Hc _.
    apply canon_lt in Hc. subst c1. unfold count_lt. cbn. lia. }
  assert (H2 : 1 <= count_lt T).
  { destruct T as [|t0 T]; [congruence|].
    change (js "</p>") with [60%N; 47%N; 112%N; 62%N] in HT.
    change (js "<p>") with [60%N; 112%N; 62%N] in HT.
    cbn [starts_ci] in HT.
    destruct (Canonicalize true t0 =? Canonicalize true 60%N)%N eqn:E;
      [|discriminate].
    apply N.eqb_eq, canon_lt in E. subst t0. unfold count_lt. cbn. lia. }
  change (62%N :: v ++ T) with ([62%N] ++ v ++ T) in Hs.
  rewrite !count_lt_app in Hs. lia.
Qed.

(** The spans of a document made of paragraphs on one line are the
    paragraphs, in their order. *)
Lemma exec_all_paragraphs tail :
  count_lt tail <= 1 ->
  forall paras done fuel,
    Forall one_line paras -> length paras < fuel ->
    map words_in
        (exec_all fuel p_regex (done ++ concat (map render paras) ++ tail)
                  (length done))
    = map words paras.
Proof.
  intros Htail. induction paras as [|p ps IH]; intros done fuel Hps Hfuel;
    (destruct fuel as [|fuel]; [lia|]); cbn [exec_all map concat app].
  - rewrite exec_p by (rewrite length_app; lia).
    rewrite skipn_app, skipn_all, Nat.sub_diag. cbn [skipn app].
    rewrite (search_p_one_lt tail _ Htail). reflexivity.
  - inversion Hps as [|? ? Hp Hps']; subst.
    rewrite exec_p by (rewrite !length_app; lia).
    rewrite skipn_app, skipn_all, Nat.sub_diag. cbn [skipn app].
    rewrite <- app_assoc. rewrite search_paragraph by exact Hp.
    cbn [index matched map].
    assert (Hbody : Forall inline_ok (body p)) by apply Hp.
    erewrite words_in_body; [| reflexivity | exact Hbody].
    f_equal.
    rewrite <- (IH (done ++ render p) fuel Hps') by (simpl in Hfuel; lia).
    rewrite <- (app_assoc done).
    replace (length (done ++ render p))
      with (length done + length (before p)
            + length (opening p ++ attributes p
                      ++ 62%N :: render_body (body p) ++ closing p));
      [reflexivity|].
    unfold render. rewrite !length_app. lia.
Qed.

(** X12: in a document made of paragraphs on one line, each after a
    text without tag, [countWordsInPTags] counts the words of the
    paragraphs: the runs of code units that are no white space in their
    texts, a tag inside a paragraph separating two words like a space.
    What follows the last paragraph counts nothing when it holds one [<]
    at most: the words of a paragraph that is opened there and not
    closed are lost. *)
Theorem countWordsInPTags_paragraphs paras tail :
  Forall one_line paras -> count_lt tail <= 1 ->
  countWordsInPTags (concat (map render paras) ++ tail)
  = Some (list_sum (map words paras)).
Proof.
  intros Hps Htail. rewrite countWordsInPTags_spans. unfold paragraph_spans.
  do 2 f_equal.
  apply (exec_all_paragraphs tail Htail paras [] _ Hps).
  rewrite length_app. pose proof (concat_render_length paras). lia.
Qed.

End ParagraphCount.

Lemma countWordsInPTags_paragraphs_witness :
  countWordsInPTags (U := ascii_case_table)
    (concat (map render Demo.article) ++ js " end <p>not closed")
  = Some 6.
Proof.
  apply (countWordsInPTags_paragraphs (U := ascii_case_table) Demo.article
           (js " end <p>not closed")).
  - repeat constructor; try (intros H; vm_compute in H; discriminate);
      right; reflexivity.
  - vm_compute. lia.
Defined.

(* ================================================================== *)
(** * The letter case of the key *)
(* ================================================================== *)

Section KeyCase.
Context {U : UnicodeData}.

Lemma flat_map_comp {A B C} (f : A -> list B) (g : B -> list C) l :
  flat_map g (flat_map f l) = flat_map (fun x => flat_map g (f x)) l.
Proof.
  induction l as [|x l IH]; [reflexivity|].
  cbn [flat_map]. now rewrite flat_map_app, IH.
Qed.

Lemma m_seq_app ic A B st :
  m_seq ic (A ++ B) st = flat_map (m_seq ic B) (m_seq ic A st).
Proof.
  revert st. induction A as [|n A IH]; intros st; cbn [app].
  - cbn [m_seq flat_map]. now rewrite app_nil_r.
  - rewrite !m_seq_cons, flat_map_comp. apply flat_map_ext.
    intros st'. apply IH.
Qed.

(** Terms with the same matches after the same terms. *)
Lemma m_seq_prefix_ext ic A B B' :
  (forall st, m_seq ic B st = m_seq ic B' st) ->
  forall st, m_seq ic (A ++ B) st = m_seq ic (A ++ B') st.
Proof.
  intros HB st. rewrite !m_seq_app. now apply flat_map_ext.
Qed.

(** Two code units with the same lower case in ASCII are the same for
    a pattern with the [i] flag. *)
Lemma toLowerCase_ascii_same_ci a b :
  toLowerCase_ascii a = toLowerCase_ascii b -> same_ci a b.
Proof.
  unfold toLowerCase_ascii, same_ci. revert b.
  induction a as [|c a IH]; intros [|d b] E; cbn [map] in *;
    try discriminate; [reflexivity|].
  injection E as Ec E. rewrite (IH b E). f_equal.
  clear - Ec. destruct (N.eq_dec c d) as [->|Hne]; [reflexivity|].
  unfold Canonicalize.
  repeat match goal with
    | H : context [N.leb ?x ?y] |- _ => destruct (N.leb_spec x y)
    | |- context [N.ltb ?x ?y] => destruct (N.ltb_spec x y)
    | |- context [N.leb ?x ?y] => destruct (N.leb_spec x y)
    end; cbn [andb] in *; lia.
Qed.

(** The terms of two keys that are the same up to letter case have the
    same matches. *)
Lemma m_seq_lits_ci a b ns st :
  same_ci a b -> m_seq true (lits a ++ ns) st = m_seq true (lits b ++ ns) st.
Proof.
  unfold same_ci. revert b st.
  induction a as [|c a IH]; intros [|d b] st E; cbn [map] in E;
    try discriminate; [reflexivity|].
  injection E as Ec E. cbn [lits map app]. rewrite !m_seq_cons.
  assert (En : m_node true (lit c) st = m_node true (lit d) st).
  { unfold lit. cbn [m_node quant]. f_equal.
    change (Canonicalize true c = Canonicalize true d) in Ec.
    destruct (fst st) as [|ch s']; [reflexivity|].
    cbn [one atom_matches]. now rewrite Ec. }
  rewrite En. apply flat_map_ext. intros st'. now apply IH.
Qed.

Lemma match_here_meta_ci attr key key' s :
  same_ci key key' ->
  match_here (meta_regex attr key) s = match_here (meta_regex attr key') s.
Proof.
  intros Hk. unfold match_here. cbn [nodes meta_regex ignoreCase].
  f_equal. unfold meta_nodes.
  do 4 (apply m_seq_prefix_ext; intros ?).
  now apply m_seq_lits_ci.
Qed.

(** Patterns with the same matches at every position find the same. *)
Lemma search_ext r r' s :
  (forall x, match_here r x = match_here r' x) ->
  forall i, search r s i = search r' s i.
Proof.
  intros Hr. induction s as [|c s IH]; intros i; cbn [search];
    rewrite Hr; [reflexivity|].
  destruct (match_here r' (c :: s)) as [[rest caps]|]; [reflexivity|].
  apply IH.
Qed.

(** A code unit outside ASCII is never compared as a code unit of
    ASCII. *)
Lemma canon_above c ch :
  (128 <= c)%N -> (ch < 128)%N ->
  Canonicalize true c <> Canonicalize true ch.
Proof.
  intros Hc Hch. unfold Canonicalize.
  repeat match goal with
    | |- context [N.ltb ?x ?y] => destruct (N.ltb_spec x y)
    | |- context [N.leb ?x ?y] => destruct (N.leb_spec x y)
    end; cbn [andb]; lia.
Qed.

(** C4 (as amended): the key is compared without regard to the case of
    the letters of ASCII, as the tag and the attribute names are: two
    keys of pattern characters that differ in the case of such letters
    only give the same result on every document, so that a meta tag is
    matched for a key as it is for its own name written in another case.
    A name that holds a code unit outside ASCII where the key holds the
    letter k is not matched, whatever the case mapping of that code
    unit: the Kelvin sign, whose lower case is k, is one. *)
Theorem getMetaContent_ignores_key_case html key key' :
  pattern_characters key -> pattern_characters key' ->
  toLowerCase_ascii key = toLowerCase_ascii key' ->
  getMetaContent html key = getMetaContent html key' /\
  forall c, (128 <= c)%N ->
    getMetaContent (js "<meta name='" ++ c :: js "' content='x'>") (js "k")
    = Some [].
Proof.
  intros Hk Hk' E. split.
  - apply toLowerCase_ascii_same_ci in E.
    rewrite !getMetaContent_unfold by assumption.
    rewrite (search_ext (meta_regex "name" key) (meta_regex "name" key') html
               (fun x => match_here_meta_ci "name" key key' x E) 0).
    rewrite (search_ext (meta_regex "property" key)
               (meta_regex "property" key') html
               (fun x => match_here_meta_ci "property" key key' x E) 0).
    reflexivity.
  - intros c Hc. rewrite getMetaContent_unfold by reflexivity.
    change (js "<meta name='" ++ c :: js "' content='x'>")
      with ([] ++ js "<meta name=" ++ 39%N :: [c] ++ 39%N :: js " content="
               ++ 39%N :: js "x" ++ 39%N :: [62%N]).
    assert (Hq : no_quote [c]).
    { unfold no_quote, is_quote. cbn [forallb].
      destruct (N.eqb_spec c 34); [lia|]. destruct (N.eqb_spec c 39); [lia|].
      reflexivity. }
    rewrite (meta_search_other_key "name" (js "k") [] (js "<meta name=")
               [c] (js " content=") (js "x") [62%N] 39%N 39%N 39%N 39%N);
      try reflexivity; try exact Hq.
    + rewrite (meta_search_other_attribute "property" (js "k") []
                 (js "<meta name=") [c] (js " content=") (js "x") [62%N]
                 39%N 39%N 39%N 39%N); try reflexivity; try exact Hq.
      intros H. vm_compute in H. discriminate.
    + unfold same_ci. change (js "k") with [107%N]. cbn [map].
      intros H.
      assert (Hh : Canonicalize true c = Canonicalize true 107%N)
        by (injection H as H'; exact H').
      revert Hh. apply canon_above; lia.
Qed.

(** A key is a part of the pattern: one with a class and a quantifier
    is matched as such. *)
Lemma getMetaContent_key_pattern :
  getMetaContent (js "<meta name='abc' content='x'>") (js "[a-z]+")
  = Some (js "x") /\
  getMetaContent (js "<meta name='ABC' content='x'>") (js "[a-c]{3}")
  = Some (js "x") /\
  getMetaContent (js "<meta name='abcd' content='x'>") (js "[a-c]{3}")
  = Some [].
Proof. repeat split; vm_compute; reflexivity. Qed.

End KeyCase.

(** C4 (as stated, refuted): the key is not compared exactly.  It is
    false that a name other than the key is never matched: the name
    [Description] is not the key [description], and the extractor
    returns the content of its tag.  Nor is there a key of pattern
    characters and a name without quotes, different from it in the case
    of letters of ASCII only, for which no match is made. *)
Lemma getMetaContent_key_case_counterexample :
  js "Description" <> js "description" /\
  getMetaContent (U := ascii_case_table)
    (js "<meta name='" ++ js "Description" ++ js "' content='x'>")
    (js "description")
  = Some (js "x") /\
  ~ (forall name key : list N,
        name <> key ->
        getMetaContent (U := ascii_case_table)
          (js "<meta name='" ++ name ++ js "' content='x'>") key
        = Some []) /\
  forall name key : list N,
    pattern_characters key -> no_quote name ->
    toLowerCase_ascii name = toLowerCase_ascii key ->
    getMetaContent (U := ascii_case_table)
      (js "<meta name='" ++ name ++ js "' content='x'>") key
    = Some (js "x").
Proof.
  split; [discriminate|]. split; [vm_compute; reflexivity|]. split.
  - intros H. specialize (H (js "Description") (js "description")).
    assert (Hne : js "Description" <> js "description") by discriminate.
    apply H in Hne. vm_compute in Hne. discriminate.
  - intros name key Hk Hq E.
    apply (toLowerCase_ascii_same_ci (U := ascii_case_table)) in E.
    rewrite getMetaContent_unfold by assumption.
    destruct (meta_search_value (U := ascii_case_table) "name" key [] name
                (js "x") [] 39%N 39%N 39%N 39%N)
      as (m & Hm & Hc); try reflexivity; try assumption.
    change ([] ++ js "<meta " ++ (js "name" ++ js "=") ++ 39%N :: name
               ++ 39%N :: js " content=" ++ 39%N :: js "x" ++ 39%N
               :: 62%N :: [])
      with (js "<meta name='" ++ name ++ js "' content='x'>") in Hm.
    rewrite Hm. exact Hc.
Qed.

Lemma getMetaContent_ignores_key_case_witness :
  getMetaContent (U := ascii_case_table)
    (js "<meta name='Description' content='a page'>") (js "description")
  = getMetaContent (U := ascii_case_table)
      (js "<meta name='Description' content='a page'>") (js "DeScRiPtIoN") /\
  forall c, (128 <= c)%N ->
    getMetaContent (U := ascii_case_table)
      (js "<meta name='" ++ c :: js "' content='x'>") (js "k")
    = Some [].
Proof.
  apply (getMetaContent_ignores_key_case (U := ascii_case_table)
           (js "<meta name='Description' content='a page'>")
           (js "description") (js "DeScRiPtIoN")); reflexivity.
Defined.

(* ================================================================== *)
(** * Paragraphs on several lines *)
(* ================================================================== *)

Section SeveralLines.
Context {U : UnicodeData}.












End SeveralLines.


